(** * Call admission and debounced dispatch of [App.tsx]

    A shallow embedding of the two stateful pieces of
    [programming-challenge/src/App.tsx]:

    - the class [RateLimiter] (lines 34-90) with the instance [limiter]
      (line 93), and
    - the hook [useDebounce] (lines 95-118).

    Times are the integer milliseconds of [Date.now()], held in [Z].  The
    JavaScript numbers involved ([maxRequests], [timeWindow], [delay], the
    timestamps) are integers far below 2^53, where double arithmetic on
    them is exact, so [Z] arithmetic is what the code computes. *)

From Stdlib Require Import ZArith List String Ascii Bool Lia Sorted.
From Stdlib Require Import DecimalString DecimalZ DecimalPos.
Import ListNotations.
Open Scope Z_scope.

(* ===================================================================== *)
(** * Part I: the data model and the operations                          *)
(* ===================================================================== *)

(** ** Numbers and strings of the host language *)

(** [Math.ceil(x / d)] for integers [x] and [d > 0]: the least integer that
    is not below the quotient.  (For |x| < 2^53 and d = 1000 the double
    quotient is within 2^-10 < 1/1000 of the real one, so rounding never
    crosses an integer.) *)
Definition Math_ceil_div (x d : Z) : Z := - ((- x) / d).

(** A number inside a template literal: an integer prints in decimal. *)
Definition Number_toString (n : Z) : string :=
  NilZero.string_of_int (Z.to_int n).

(** [`${v}`] for a value of type [number | null]. *)
Definition template_number_or_null (v : option Z) : string :=
  match v with
  | Some n => Number_toString n
  | None => "null"
  end.

(** ** Promises

    Only the way a promise settles matters here: with a value, or rejected
    with a reason of some type [E]. *)
Inductive Promise (E X : Type) : Type :=
| fulfilled (x : X)
| rejected (reason : E).
Arguments fulfilled {E X} x.
Arguments rejected {E X} reason.

(** [const x = await p; k x] inside an [async] function: a rejection of [p]
    is thrown at the [await] and, nothing catching it, rejects the promise
    of the function itself. *)
Definition await {E X Y : Type} (p : Promise E X) (k : X -> Promise E Y)
  : Promise E Y :=
  match p with
  | fulfilled x => k x
  | rejected reason => rejected reason
  end.

(** ** The class [RateLimiter] *)

Section RateLimiterModel.
(** [T] is the lookup's output, [A] its argument tuple, [E] the reasons a
    promise may be rejected with. *)
Context {T A E : Type}.

(** [Success<T> | Failure] (lines 30-31). *)
Inductive Response : Type :=
| success (data : T)
| failure.

(** The fields of the class (lines 35-39). *)
Record RateLimiter : Type := mkRateLimiter {
  maxRequests : Z;
  timeWindow : Z;
  func : A -> Promise E T;
  timestamps : list Z;
  error : option string
}.

Definition set_timestamps (ts : list Z) (this : RateLimiter) : RateLimiter :=
  {| maxRequests := maxRequests this; timeWindow := timeWindow this;
     func := func this; timestamps := ts; error := error this |}.

Definition set_error (e : option string) (this : RateLimiter) : RateLimiter :=
  {| maxRequests := maxRequests this; timeWindow := timeWindow this;
     func := func this; timestamps := timestamps this; error := e |}.

(** The constructor (lines 41-49) with the field initialisers of lines
    38-39. *)
Definition new_RateLimiter (maxRequests timeWindow : Z)
    (func : A -> Promise E T) : RateLimiter :=
  {| maxRequests := maxRequests; timeWindow := timeWindow; func := func;
     timestamps := []; error := None |}.

(** [calculateRemainingTime] (lines 51-63).  [now] is the value read from
    [Date.now()] on line 52.  The method may clear [error], so it returns
    the object along with its result. *)
Definition calculateRemainingTime (now : Z) (this : RateLimiter)
  : RateLimiter * option Z :=
  match timestamps this with
  | [] => (this, None)
  | earliestTimestamp :: _ =>
      let timeElapsed := now - earliestTimestamp in
      if timeElapsed >=? timeWindow this
      then (set_error None this, None)
      else (this, Some (Math_ceil_div (timeWindow this - timeElapsed) 1000))
  end.

(** The message built on line 68. *)
Definition rate_exceeded (remainingTime : option Z) : string :=
  ("Rate exceeded, please wait "
     ++ template_number_or_null remainingTime ++ " seconds.")%string.

(** [updateErrorTime] (lines 65-73).  The body calls
    [calculateRemainingTime] up to twice and each call reads the clock
    itself: [now1] is the reading of the call on line 67 (ignored when
    that line is not reached), [now2] the reading of the call on line
    70. *)
Definition updateErrorTime (now1 now2 : Z) (this : RateLimiter)
  : RateLimiter :=
  let this1 :=
    if Z.of_nat (List.length (timestamps this)) >=? maxRequests this
    then
      let (this', remainingTime) := calculateRemainingTime now1 this in
      set_error (Some (rate_exceeded remainingTime)) this'
    else this in
  let (this2, remaining) := calculateRemainingTime now2 this1 in
  match remaining with
  | None => set_error None this2
  | Some _ => this2
  end.

(** What one call of [invoke] leaves behind: the object, the argument
    tuples [func] was called with during the call, and the way the
    returned promise settles. *)
Record Invocation : Type := mkInvocation {
  after : RateLimiter;
  called : list A;
  response : Promise E Response
}.

(** [invoke] (lines 75-89).  [now] is the reading of line 76.  Lines 76-86
    and the call of [func] on line 87 run without suspension; what runs
    after the [await] (line 88) touches no field, so the object the call
    leaves is the one reached at line 86. *)
Definition invoke (now : Z) (args : A) (this : RateLimiter) : Invocation :=
  let this1 :=
    set_timestamps
      (filter (fun timestamp => now - timestamp <? timeWindow this)
              (timestamps this))
      this in
  if Z.of_nat (List.length (timestamps this1)) >=? maxRequests this1
  then {| after := this1; called := []; response := fulfilled failure |}
  else
    let this2 := set_timestamps (timestamps this1 ++ [now])%list this1 in
    let this3 := set_error None this2 in
    {| after := this3;
       called := [args];
       response :=
         await (func this3 args) (fun result => fulfilled (success result)) |}.

(** A call was refused exactly when it returned [{ type: "failure" }]. *)
Definition is_failure (r : Promise E Response) : bool :=
  match r with
  | fulfilled failure => true
  | _ => false
  end.

(** A sequence of [invoke] calls, each with the clock reading it sees;
    the result lists, per call, that reading and whether the call was
    admitted, and gives the object left at the end. *)
Fixpoint invoke_all (calls : list (Z * A)) (this : RateLimiter)
  : list (Z * bool) * RateLimiter :=
  match calls with
  | [] => ([], this)
  | (now, args) :: rest =>
      let r := invoke now args this in
      let (log, final) := invoke_all rest (after r) in
      ((now, negb (is_failure (response r))) :: log, final)
  end.

(** The clock readings of the admitted calls of a log, oldest first. *)
Definition admitted_times (log : list (Z * bool)) : list Z :=
  map fst (filter snd log).

(** The objects a program can hold: a freshly constructed limiter, and
    whatever the two public methods make of it. *)
Inductive reachable (m w : Z) (f : A -> Promise E T) : RateLimiter -> Prop :=
| reachable_new : reachable m w f (new_RateLimiter m w f)
| reachable_invoke this now args :
    reachable m w f this -> reachable m w f (after (invoke now args this))
| reachable_updateErrorTime this now1 now2 :
    reachable m w f this -> reachable m w f (updateErrorTime now1 now2 this).

End RateLimiterModel.

Arguments Response : clear implicits.
Arguments RateLimiter : clear implicits.
Arguments Invocation : clear implicits.

(** The instance of line 93; [search] is the wrapped lookup. *)
Definition limiter {T A E : Type} (search : A -> Promise E T)
  : RateLimiter T A E :=
  new_RateLimiter 2 15000 search.

(** ** The derived error state as the specification words it

    The specification describes the error state as [none] or
    [limited(remainingSeconds)] and derives it from the timestamps alone:
    "compute remaining = ceil((windowMs - (now - earliestTimestamp)) / 1000)
    when the sequence is non-empty and elapsed time since the earliest entry
    is < windowMs; if the sequence length is >= maxRequests, surface
    limited(remaining); otherwise surface none".  This second definition
    follows those words; the theorems compare it with [updateErrorTime]. *)
Inductive ErrorState : Type :=
| none
| limited (remainingSeconds : Z).

(** [ceil(ms / 1000)] for an integer [ms]: the quotient, and one more
    when the division leaves a remainder. *)
Definition spec_ceil_seconds (ms : Z) : Z :=
  if ms mod 1000 =? 0 then ms / 1000 else ms / 1000 + 1.

Definition spec_errorState {T A E : Type} (now : Z) (this : RateLimiter T A E)
  : ErrorState :=
  match timestamps this with
  | [] => none
  | earliestTimestamp :: _ =>
      if (Z.of_nat (List.length (timestamps this)) >=? maxRequests this)
         && (now - earliestTimestamp <? timeWindow this)
      then limited
             (spec_ceil_seconds
                (timeWindow this - (now - earliestTimestamp)))
      else none
  end.

(** How an [ErrorState] shows in the field [error : string | null]: not at
    all, or as the sentence of the interface with the seconds in
    decimal. *)
Definition shown (e : ErrorState) : option string :=
  match e with
  | none => None
  | limited remainingSeconds =>
      Some ("Rate exceeded, please wait "
              ++ NilZero.string_of_int (Z.to_int remainingSeconds)
              ++ " seconds.")%string
  end.

(** ** The hook [useDebounce] *)

(** The record type [Persons] (line 32). *)
Module Persons.
Record t : Type := mk { id : Z; name : string; description : string }.
End Persons.

(** Arrays and functions are objects: a dependency list and [setValue]
    compare them with [Object.is], that is by identity, which [address]
    stands for. *)
Record PersonsArray : Type := mkPersonsArray {
  address : nat;
  elements : list Persons.t
}.

(** The identity of a function object of type
    [(query: string) => Promise<Persons[]>]. *)
Definition QueryFn : Type := nat.

(** The arguments of one call of [useDebounce] (lines 96-99). *)
Record Props : Type := mkProps {
  initialValue : PersonsArray;
  targetFunction : QueryFn;
  delay : Z;
  query : string
}.

(** The comparison React makes of the dependency list of line 115,
    [[query, delay, targetFunction, initialValue]], with that of the
    previous render: entry by entry with [Object.is]. *)
Definition same_deps (prev next : Props) : bool :=
  String.eqb (query prev) (query next)
  && (delay prev =? delay next)
  && Nat.eqb (targetFunction prev) (targetFunction next)
  && Nat.eqb (address (initialValue prev)) (address (initialValue next)).

(** ** The timers of the host

    [setTimeout(handler, timeout)] takes its [timeout] as a 32-bit signed
    integer: the number is reduced modulo 2^32 into [-2^31, 2^31), and a
    negative result counts as zero.  So a delay of 2^31 ms or a little
    more does not wait at all. *)
Definition ToInt32 (n : Z) : Z := (n + 2 ^ 31) mod 2 ^ 32 - 2 ^ 31.

Definition setTimeout_delay (timeout : Z) : Z := Z.max 0 (ToInt32 timeout).

(** A live timeout, set by [setTimeout] on line 104 and neither fired nor
    cleared yet: the handle [setTimeout] returned, the time it is due, and
    the variables of the render its callback closes over. *)
Record Timeout : Type := mkTimeout {
  handle : nat;
  due : Z;
  closure : Props
}.

(** The host keeps its live timeouts in firing order: by due time, and in
    the order they were set when due together. *)
Fixpoint enqueue (t : Timeout) (queue : list Timeout) : list Timeout :=
  match queue with
  | [] => [t]
  | t' :: rest =>
      if due t <? due t' then t :: t' :: rest else t' :: enqueue t rest
  end.

(** One instance of the hook inside its host.  [value] is the state cell
    of line 101, [deps] the dependency list of the last run of the effect,
    [handler] the constant of line 104 as the cleanup of that run sees it,
    [suspended] the callbacks waiting at the [await] of line 106 (oldest
    first).  [timers] are the live timeouts the hook has set and
    [next_handle] the handle the host gives next.  [lookups] and
    [published] are ghost logs of the calls of [targetFunction] and of
    [setValue] made so far. *)
Record Hook : Type := mkHook {
  value : PersonsArray;
  deps : Props;
  handler : nat;
  timers : list Timeout;
  next_handle : nat;
  suspended : list Props;
  lookups : list (QueryFn * string);
  published : list PersonsArray
}.

(** [setValue(v)] (lines 107 and 109). *)
Definition setValue (v : PersonsArray) (h : Hook) : Hook :=
  {| value := v; deps := deps h; handler := handler h; timers := timers h;
     next_handle := next_handle h;
     suspended := suspended h; lookups := lookups h;
     published := (published h ++ [v])%list |}.

(** The callback of the timeout (lines 104-111), run when the timeout
    fires, up to its [await]: with a non-empty query it calls
    [targetFunction] and suspends, otherwise it resets the value. *)
Definition callback (c : Props) (h : Hook) : Hook :=
  if (0 <? String.length (query c))%nat
  then {| value := value h; deps := deps h; handler := handler h;
          timers := timers h; next_handle := next_handle h;
          suspended := (suspended h ++ [c])%list;
          lookups := (lookups h ++ [(targetFunction c, query c)])%list;
          published := published h |}
  else setValue (initialValue c) h.

(** [setTimeout(callback, timeout)] at time [now], [c] being the variables
    the callback closes over: the new timeout joins the live ones, and its
    handle is returned. *)
Definition setTimeout (now : Z) (c : Props) (timeout : Z) (h : Hook)
  : nat * Hook :=
  (next_handle h,
   {| value := value h; deps := deps h; handler := handler h;
      timers :=
        enqueue {| handle := next_handle h;
                   due := now + setTimeout_delay timeout;
                   closure := c |}
                (timers h);
      next_handle := S (next_handle h);
      suspended := suspended h; lookups := lookups h;
      published := published h |}).

(** [clearTimeout(id)]: the timeout with that handle, if it is still live,
    is dropped. *)
Definition clearTimeout (id : nat) (h : Hook) : Hook :=
  {| value := value h; deps := deps h; handler := handler h;
     timers := filter (fun t => negb (Nat.eqb (handle t) id)) (timers h);
     next_handle := next_handle h;
     suspended := suspended h; lookups := lookups h;
     published := published h |}.

(** The body of the effect (lines 104-111), run for the render with
    arguments [p]: set the timeout and keep its handle. *)
Definition effect (now : Z) (p : Props) (h : Hook) : Hook :=
  let (id, h1) := setTimeout now p (delay p) h in
  {| value := value h1; deps := p; handler := id; timers := timers h1;
     next_handle := next_handle h1;
     suspended := suspended h1; lookups := lookups h1;
     published := published h1 |}.

(** The cleanup of the effect (line 114): [clearTimeout(handler)]. *)
Definition cleanup (h : Hook) : Hook := clearTimeout (handler h) h.

(** The first render: [useState(initialValue)] initialises the cell and the
    effect runs. *)
Definition mount (now : Z) (p : Props) : Hook :=
  effect now p
    {| value := initialValue p; deps := p; handler := 0%nat; timers := [];
       next_handle := 0%nat;
       suspended := []; lookups := []; published := [] |}.

(** A later render at time [now] with arguments [p]: when an entry of the
    dependency list changed, the cleanup of the previous run and then the
    effect run; otherwise nothing does.  The call returns [value h]
    (line 117). *)
Definition useDebounce (now : Z) (p : Props) (h : Hook) : Hook :=
  if same_deps (deps h) p then h else effect now p (cleanup h).

(** The host's clock reaches [now]: the live timeouts that are due fire in
    their order; a timeout that fires is live no more, and its callback
    runs. *)
Fixpoint fire_due (now : Z) (queue : list Timeout) (h : Hook) : Hook :=
  match queue with
  | [] => h
  | t :: rest =>
      if due t <=? now
      then fire_due now rest (callback (closure t) (clearTimeout (handle t) h))
      else h
  end.

Definition advance (now : Z) (h : Hook) : Hook := fire_due now (timers h) h.

(** Remove the [k]-th element of a list. *)
Definition remove_nth {X : Type} (k : nat) (l : list X) : list X :=
  (firstn k l ++ skipn (S k) l)%list.

(** The promise awaited by the [k]-th suspended callback settles: the
    callback resumes at line 107 with the result, or ends with the
    rejection. *)
Definition settle {E : Type} (k : nat) (outcome : Promise E PersonsArray)
    (h : Hook) : Hook :=
  match nth_error (suspended h) k with
  | None => h
  | Some _ =>
      let h' :=
        {| value := value h; deps := deps h; handler := handler h;
           timers := timers h; next_handle := next_handle h;
           suspended := remove_nth k (suspended h); lookups := lookups h;
           published := published h |} in
      match outcome with
      | fulfilled result => setValue result h'
      | rejected _ => h'
      end
  end.

(** A series of renders, each at its time; before each the clock advances
    to it. *)
Fixpoint renders (events : list (Z * Props)) (h : Hook) : Hook :=
  match events with
  | [] => h
  | (now, p) :: rest => renders rest (useDebounce now p (advance now h))
  end.

(** The only live timeouts of [h] are those its cleanup would clear.  Every
    hook that [mount], [useDebounce], [advance] and [settle] produce is in
    this state. *)
Definition tidy (h : Hook) : Prop :=
  forall t, In t (timers h) -> handle t = handler h.

(** No timeout of [h] is due at [now]: [h] is the hook as it stands at that
    time. *)
Definition settled_at (now : Z) (h : Hook) : Prop :=
  Forall (fun t => now < due t) (timers h).

(** Renders in rapid succession: each comes less than the delay then in
    force after the previous one.  [prev] and [since] are the arguments in
    force and the time they were passed. *)
Fixpoint rapid (prev : Props) (since : Z) (events : list (Z * Props)) : Prop :=
  match events with
  | [] => True
  | (now, p) :: rest =>
      since <= now < since + delay prev /\ rapid p now rest
  end.

(** Every render changes the dependency list of the one before. *)
Fixpoint changing (prev : Props) (events : list (Z * Props)) : Prop :=
  match events with
  | [] => True
  | (_, p) :: rest => same_deps prev p = false /\ changing p rest
  end.

(** Every delay is one [setTimeout] waits out in full. *)
Definition in_range (events : list (Z * Props)) : Prop :=
  Forall (fun e => 0 <= delay (snd e) < 2 ^ 31) events.

(** A burst that starts at the hook [h], as it stands at the time of the
    first render. *)
Definition burst (h : Hook) (events : list (Z * Props)) : Prop :=
  match events with
  | [] => True
  | (now, p) :: rest => settled_at now h /\ rapid p now rest
  end.

(** ** The call sites in [App]

    The hook is called on line 142 with a new empty array, the function
    [autocomplete] (line 120), 250 ms and the current query.  [fresh] is
    the address of the array literal of that render. *)
Definition autocomplete : QueryFn := 0%nat.

Definition App_arguments (fresh : nat) (q : string) : Props :=
  {| initialValue := {| address := fresh; elements := [] |};
     targetFunction := autocomplete;
     delay := 250;
     query := q |}.

(** The hook of [App], mounted at time 0 with the empty query of line 134
    and left alone until time 1000. *)
Definition idle_hook : Hook := advance 1000 (mount 0 (App_arguments 0 "")).

(** The user types "a", "al", "ali", 100 ms apart. *)
Definition typing_ali : list (Z * Props) :=
  [(1000, App_arguments 1 "a"); (1100, App_arguments 2 "al");
   (1200, App_arguments 3 "ali")].

(** The arguments [p] with another delay. *)
Definition with_delay (d : Z) (p : Props) : Props :=
  {| initialValue := initialValue p; targetFunction := targetFunction p;
     delay := d; query := query p |}.

(** A lookup that finds nothing, standing for [search] in the examples, and
    the limiter of line 93 after two searches at times 0 and 1. *)
Definition no_results (q : string) : Promise unit (list Persons.t) :=
  fulfilled [].

Definition full_limiter : RateLimiter (list Persons.t) string unit :=
  snd (invoke_all [(0, "ali"%string); (1, "bob"%string)] (limiter no_results)).

(** ** The string methods the lookups use

    The characters of a [string] stand for the code units below 256.  On
    such strings [String.prototype.toLowerCase] maps unit by unit: the
    letters A-Z and the letters U+00C0-U+00DE other than the sign U+00D7
    move up by 32, every other unit stays, and the length does not
    change. *)
Definition Char_toLowerCase (c : ascii) : ascii :=
  let n := N_of_ascii c in
  if ((65 <=? n) && (n <=? 90)
      || (192 <=? n) && (n <=? 222) && negb (n =? 215))%N
  then ascii_of_N (n + 32)
  else c.

Fixpoint toLowerCase (s : string) : string :=
  match s with
  | EmptyString => EmptyString
  | String c rest => String (Char_toLowerCase c) (toLowerCase rest)
  end.

(** [s.startsWith(searchString)]. *)
Definition startsWith (s searchString : string) : bool :=
  String.prefix searchString s.

(** [s.includes(searchString)]: [searchString] starts at some position of
    [s]. *)
Fixpoint includes (s searchString : string) : bool :=
  String.prefix searchString s
  || match s with
     | EmptyString => false
     | String _ rest => includes rest searchString
     end.

(** ** The mock query service (lines 5-27 and 120-131)

    Both lookups resolve after 500 ms with the matching records and never
    reject; the filter reads the constant [mockData] only. *)
Module Mock.
Definition mockData : list Persons.t :=
  [ Persons.mk 1 "Alice" "Software Engineer";
    Persons.mk 2 "Alina" "Software Engineer";
    Persons.mk 3 "Alixa" "Software Engineer";
    Persons.mk 4 "Bob" "Data Scientist";
    Persons.mk 5 "Charlie" "Product Manager";
    Persons.mk 6 "Charlito" "Product Manager";
    Persons.mk 7 "Diana" "UX Designer" ].

(** [search] (lines 16-27). *)
Definition search {E : Type} (query : string) : Promise E (list Persons.t) :=
  let results :=
    filter (fun item =>
              includes (toLowerCase (Persons.name item)) (toLowerCase query))
           mockData in
  fulfilled results.

(** [autocomplete] (lines 120-131). *)
Definition autocomplete {E : Type} (query : string)
  : Promise E (list Persons.t) :=
  let lowerCaseQuery := toLowerCase query in
  fulfilled
    (filter (fun item =>
               startsWith (toLowerCase (Persons.name item)) lowerCaseQuery)
            mockData).
End Mock.

(** ** The component [App] (lines 133-182)

    The state cells of lines 134-141. *)
Module App.
Record state : Type := mk {
  query : string;
  results : option (list Persons.t);
  error : option string;
  charError : option string;
  loading : bool;
  searchMessage : option string
}.
End App.

(** The initial values of the cells. *)
Definition App_initial : App.state :=
  {| App.query := ""; App.results := None; App.error := None;
     App.charError := None; App.loading := false;
     App.searchMessage := None |}.

(** The double quote, and the messages of lines 160 and 169. *)
Definition double_quote : string := String (ascii_of_nat 34) EmptyString.

Definition query_too_short : string :=
  "Query must be at least 3 characters long.".

Definition search_result_for (q : string) : string :=
  ("Search result for " ++ double_quote ++ q ++ double_quote)%string.

(** [handleSearch] (lines 158-182) up to its [await] on line 166: the
    cells after lines 159-165, the limiter after the call of [invoke], and,
    unless the function returned on line 161, the query its closure holds
    with the promise it waits for. *)
Definition handleSearch_start {E : Type} (now : Z) (st : App.state)
    (lim : RateLimiter (list Persons.t) string E)
  : App.state * RateLimiter (list Persons.t) string E
    * option (string * Promise E (Response (list Persons.t))) :=
  if (String.length (App.query st) <? 3)%nat
  then ({| App.query := App.query st; App.results := App.results st;
           App.error := App.error st;
           App.charError := Some query_too_short;
           App.loading := App.loading st;
           App.searchMessage := App.searchMessage st |},
        lim, None)
  else
    let st1 :=
      {| App.query := App.query st; App.results := App.results st;
         App.error := None; App.charError := None; App.loading := true;
         App.searchMessage := App.searchMessage st |} in
    let r := invoke now (App.query st) lim in
    (st1, after r, Some (App.query st, response r)).

(** Lines 168-181, run on the cells as they are when the promise of
    [invoke] is fulfilled; [q] is the query of the closure.  When the
    promise is rejected the [await] throws and none of these lines runs. *)
Definition handleSearch_resume {E : Type} (q : string)
    (settled : Promise E (Response (list Persons.t))) (st : App.state)
  : App.state :=
  match settled with
  | fulfilled (success data) =>
      {| App.query := "";
         App.results :=
           if (0 <? List.length data)%nat then Some data else None;
         App.error := App.error st; App.charError := App.charError st;
         App.loading := false;
         App.searchMessage := Some (search_result_for q) |}
  | fulfilled failure =>
      {| App.query := ""; App.results := None;
         App.error := App.error st; App.charError := App.charError st;
         App.loading := false; App.searchMessage := None |}
  | rejected _ => st
  end.

(** A click on the button during whose wait nothing else runs, so that
    line 168 finds the cells as line 165 left them.  That is always so
    where the function does not wait: for a short query, and for a refused
    call, whose promise is settled when it is returned.  While an admitted
    call waits for the lookup, the interval of lines 150-153 may run; such
    runs are composed of [handleSearch_start], [App_tick] and
    [handleSearch_resume]. *)
Definition handleSearch {E : Type} (now : Z) (st : App.state)
    (lim : RateLimiter (list Persons.t) string E)
  : App.state * RateLimiter (list Persons.t) string E :=
  match handleSearch_start now st lim with
  | (st1, lim1, Some (q, settled)) => (handleSearch_resume q settled st1, lim1)
  | (st1, lim1, None) => (st1, lim1)
  end.

(** One tick of the interval of lines 150-153; [now1] and [now2] are the
    clock readings of [updateErrorTime]. *)
Definition App_tick {E : Type} (now1 now2 : Z) (st : App.state)
    (lim : RateLimiter (list Persons.t) string E)
  : App.state * RateLimiter (list Persons.t) string E :=
  let lim1 := updateErrorTime now1 now2 lim in
  ({| App.query := App.query st; App.results := App.results st;
      App.error := error lim1; App.charError := App.charError st;
      App.loading := App.loading st;
      App.searchMessage := App.searchMessage st |},
   lim1).

(** [disabled={loading || !!error}] (lines 197 and 209): a string is truthy
    when it is not empty. *)
Definition disabled (st : App.state) : bool :=
  App.loading st
  || match App.error st with
     | Some message => (0 <? String.length message)%nat
     | None => false
     end.

(** The limiter of line 93 with the lookup of lines 16-27. *)
Definition App_limiter {E : Type} : RateLimiter (list Persons.t) string E :=
  limiter Mock.search.

(** The cells once the user has typed [q] into the fresh form, a lookup
    that always rejects, and the limiter of the component after searches
    at times 0 and 1. *)
Definition App_typed (q : string) : App.state :=
  {| App.query := q; App.results := None; App.error := None;
     App.charError := None; App.loading := false;
     App.searchMessage := None |}.

Definition failing_lookup (q : string) : Promise string (list Persons.t) :=
  rejected "unavailable"%string.

Definition App_full_limiter : RateLimiter (list Persons.t) string unit :=
  snd (invoke_all [(0, "ali"%string); (1, "bob"%string)] App_limiter).

(** The limiter of the component after one search at time 100. *)
Definition App_limiter_after_one : RateLimiter (list Persons.t) string unit :=
  snd (invoke_all [(100, "bob"%string)] App_limiter).

(* ===================================================================== *)
(** * Part II: the rate limiter                                          *)
(* ===================================================================== *)

(** ** Rounding up *)

Lemma Math_ceil_div_spec (x d : Z) :
  0 < d ->
  d * (Math_ceil_div x d - 1) < x <= d * Math_ceil_div x d.
Proof.
  intros Hd. unfold Math_ceil_div.
  pose proof (Z.div_mod (- x) d) as Hdm.
  pose proof (Z.mod_pos_bound (- x) d Hd) as Hb.
  nia.
Qed.

Lemma Math_ceil_div_least (x d n : Z) :
  0 < d -> x <= d * n -> Math_ceil_div x d <= n.
Proof.
  intros Hd Hn. pose proof (Math_ceil_div_spec x d Hd). nia.
Qed.

Lemma Math_ceil_div_positive (x d : Z) :
  0 < d -> 0 < x -> 1 <= Math_ceil_div x d.
Proof.
  intros Hd Hx. pose proof (Math_ceil_div_spec x d Hd). nia.
Qed.

Lemma Math_ceil_div_monotone (x y d : Z) :
  0 < d -> x <= y -> Math_ceil_div x d <= Math_ceil_div y d.
Proof.
  intros Hd Hxy. apply Math_ceil_div_least; [assumption|].
  pose proof (Math_ceil_div_spec y d Hd). lia.
Qed.

(** ** The message determines the error state *)

Lemma Number_toString_injective (a b : Z) :
  Number_toString a = Number_toString b -> a = b.
Proof.
  unfold Number_toString. intros H.
  assert (Hnn : forall z, Z.to_int z <> Decimal.Pos Decimal.Nil
                          /\ Z.to_int z <> Decimal.Neg Decimal.Nil).
  { intros [|q|q]; simpl; split; try discriminate;
      intros Hq; inversion Hq as [Hu];
      exact (DecimalPos.Unsigned.to_uint_nonnil q Hu). }
  pose proof (NilZero.isi (Z.to_int a) (proj1 (Hnn a)) (proj2 (Hnn a))) as Ha.
  pose proof (NilZero.isi (Z.to_int b) (proj1 (Hnn b)) (proj2 (Hnn b))) as Hb.
  rewrite H, Hb in Ha. inversion Ha as [Hab].
  rewrite <- (DecimalZ.of_to a), <- (DecimalZ.of_to b), Hab. reflexivity.
Qed.

Lemma append_length (s1 s2 : string) :
  String.length (s1 ++ s2) = (String.length s1 + String.length s2)%nat.
Proof. induction s1 as [|c s1 IH]; simpl; [reflexivity|rewrite IH; reflexivity]. Qed.

Lemma append_cancel_left (p x y : string) :
  (p ++ x)%string = (p ++ y)%string -> x = y.
Proof.
  induction p as [|c p IH]; simpl; intros H; [exact H|].
  inversion H; auto.
Qed.

Lemma append_cancel_right (t x y : string) :
  (x ++ t)%string = (y ++ t)%string -> x = y.
Proof.
  revert y; induction x as [|c x IH]; intros [|d y] H; simpl in H.
  - reflexivity.
  - apply (f_equal String.length) in H. simpl in H.
    rewrite append_length in H. lia.
  - apply (f_equal String.length) in H. simpl in H.
    rewrite append_length in H. lia.
  - inversion H; subst. f_equal. apply IH; assumption.
Qed.

(** Two error states that show the same are the same. *)
Lemma shown_injective (e1 e2 : ErrorState) : shown e1 = shown e2 -> e1 = e2.
Proof.
  destruct e1 as [|r1], e2 as [|r2]; unfold shown; intros H;
    try reflexivity; try discriminate.
  apply (f_equal (fun o => match o with
                           | Some m => m
                           | None => ""%string
                           end)) in H.
  apply append_cancel_left, append_cancel_right in H.
  apply Number_toString_injective in H. congruence.
Qed.

(** The rounding of the code is the ceiling: the two ways of computing it
    agree, and the message of line 68 is the sentence with the number in
    decimal. *)
Lemma Math_ceil_div_1000 (ms : Z) :
  Math_ceil_div ms 1000 = spec_ceil_seconds ms.
Proof.
  unfold Math_ceil_div, spec_ceil_seconds.
  pose proof (Z.div_mod ms 1000 ltac:(lia)) as H1.
  pose proof (Z.mod_pos_bound ms 1000 ltac:(lia)) as H2.
  pose proof (Z.div_mod (- ms) 1000 ltac:(lia)) as H3.
  pose proof (Z.mod_pos_bound (- ms) 1000 ltac:(lia)) as H4.
  destruct (Z.eqb_spec (ms mod 1000) 0); lia.
Qed.

Lemma spec_ceil_seconds_bounds (ms : Z) :
  1000 * (spec_ceil_seconds ms - 1) < ms <= 1000 * spec_ceil_seconds ms.
Proof.
  rewrite <- Math_ceil_div_1000. apply Math_ceil_div_spec. lia.
Qed.

Lemma rate_exceeded_shown (ms : Z) :
  Some (rate_exceeded (Some (Math_ceil_div ms 1000)))
  = shown (limited (spec_ceil_seconds ms)).
Proof. rewrite Math_ceil_div_1000. reflexivity. Qed.

(** ** What the methods leave alone *)

Section RateLimiterFacts.
Context {T A E : Type}.
Implicit Types this : RateLimiter T A E.

Lemma set_error_same this : set_error (error this) this = this.
Proof. destruct this; reflexivity. Qed.

Lemma set_error_twice e e' this :
  set_error e (set_error e' this) = set_error e this.
Proof. reflexivity. Qed.

Lemma calculateRemainingTime_frame now this :
  fst (calculateRemainingTime now this)
  = set_error (error (fst (calculateRemainingTime now this))) this.
Proof.
  unfold calculateRemainingTime.
  destruct (timestamps this) as [|t0 rest]; simpl.
  - symmetry; apply set_error_same.
  - destruct (now - t0 >=? timeWindow this); simpl.
    + reflexivity.
    + symmetry; apply set_error_same.
Qed.

(** The result of [calculateRemainingTime] depends on the clock, the
    window and the timestamps only. *)
Lemma calculateRemainingTime_result now this :
  snd (calculateRemainingTime now this)
  = match timestamps this with
    | [] => None
    | t0 :: _ =>
        if now - t0 <? timeWindow this
        then Some (Math_ceil_div (timeWindow this - (now - t0)) 1000)
        else None
    end.
Proof.
  unfold calculateRemainingTime.
  destruct (timestamps this) as [|t0 rest]; [reflexivity|].
  rewrite Z.geb_leb.
  destruct (Z.leb_spec (timeWindow this) (now - t0)) as [H|H];
    destruct (Z.ltb_spec (now - t0) (timeWindow this)) as [H'|H'];
    try lia; reflexivity.
Qed.

Lemma calculateRemainingTime_set_error now e this :
  calculateRemainingTime now (set_error e this)
  = (set_error (error (fst (calculateRemainingTime now (set_error e this))))
               this,
     snd (calculateRemainingTime now this)).
Proof.
  unfold calculateRemainingTime; simpl.
  destruct (timestamps this) as [|t0 rest]; [reflexivity|].
  destruct (now - t0 >=? timeWindow this); reflexivity.
Qed.

Lemma updateErrorTime_frame now1 now2 this :
  updateErrorTime now1 now2 this
  = set_error (error (updateErrorTime now1 now2 this)) this.
Proof.
  unfold updateErrorTime.
  destruct (Z.of_nat (List.length (timestamps this)) >=? maxRequests this).
  - destruct (calculateRemainingTime now1 this) as [this' r1] eqn:E1.
    pose proof (calculateRemainingTime_frame now1 this) as F1.
    rewrite E1 in F1; simpl in F1. rewrite F1, set_error_twice.
    rewrite calculateRemainingTime_set_error.
    destruct (snd (calculateRemainingTime now2 this)); reflexivity.
  - destruct (calculateRemainingTime now2 this) as [this2 r2] eqn:E2.
    pose proof (calculateRemainingTime_frame now2 this) as F2.
    rewrite E2 in F2; simpl in F2.
    destruct r2; rewrite F2; reflexivity.
Qed.

(** The field [error] after a poll, case by case. *)
Lemma updateErrorTime_error now1 now2 this :
  error (updateErrorTime now1 now2 this)
  = match snd (calculateRemainingTime now2 this) with
    | None => None
    | Some _ =>
        if Z.of_nat (List.length (timestamps this)) >=? maxRequests this
        then Some (rate_exceeded (snd (calculateRemainingTime now1 this)))
        else error this
    end.
Proof.
  unfold updateErrorTime.
  destruct (Z.of_nat (List.length (timestamps this)) >=? maxRequests this).
  - destruct (calculateRemainingTime now1 this) as [this' r1] eqn:E1.
    pose proof (calculateRemainingTime_frame now1 this) as F1.
    rewrite E1 in F1; simpl in F1. rewrite F1, set_error_twice.
    rewrite calculateRemainingTime_set_error; simpl.
    destruct (snd (calculateRemainingTime now2 this)) eqn:E2; simpl.
    + unfold calculateRemainingTime in *; simpl in *.
      destruct (timestamps this) as [|t0 rest]; [discriminate|].
      destruct (now2 - t0 >=? timeWindow this); [discriminate|reflexivity].
    + reflexivity.
  - destruct (calculateRemainingTime now2 this) as [this2 r2] eqn:E2; simpl.
    destruct r2; [|reflexivity].
    unfold calculateRemainingTime in E2.
    destruct (timestamps this) as [|t0 rest]; [discriminate|].
    destruct (now2 - t0 >=? timeWindow this); inversion E2; reflexivity.
Qed.

End RateLimiterFacts.

(** ** Invariants of the reachable objects *)

Section RateLimiterInvariants.
Context {T A E : Type}.
Implicit Types this : RateLimiter T A E.

(** The admission test of line 81, read on the object before the call. *)
Lemma invoke_refused_iff now args this :
  is_failure (response (invoke now args this)) = true
  <-> maxRequests this
      <= Z.of_nat (List.length
           (filter (fun timestamp => now - timestamp <? timeWindow this)
                   (timestamps this))).
Proof.
  unfold invoke; simpl. rewrite Z.geb_leb.
  destruct (Z.leb_spec (maxRequests this)
              (Z.of_nat (List.length
                 (filter (fun timestamp => now - timestamp <? timeWindow this)
                         (timestamps this))))) as [H|H]; simpl.
  - split; [intros _; exact H | reflexivity].
  - split; [|lia].
    destruct (func _ args); simpl; discriminate.
Qed.

Lemma invoke_admitted_iff now args this :
  is_failure (response (invoke now args this)) = false
  <-> Z.of_nat (List.length
        (filter (fun timestamp => now - timestamp <? timeWindow this)
                (timestamps this)))
      < maxRequests this.
Proof.
  pose proof (invoke_refused_iff now args this) as H.
  destruct (is_failure (response (invoke now args this))).
  - split; [discriminate|]. intros Hlt.
    pose proof (proj1 H eq_refl). lia.
  - split; [|reflexivity]. intros _.
    destruct (Z.lt_ge_cases
      (Z.of_nat (List.length
         (filter (fun timestamp => now - timestamp <? timeWindow this)
                 (timestamps this))))
      (maxRequests this)) as [Hlt|Hge]; [exact Hlt|].
    apply H in Hge; discriminate.
Qed.

(** The timestamps an [invoke] leaves. *)
Lemma invoke_timestamps now args this :
  timestamps (after (invoke now args this))
  = (filter (fun timestamp => now - timestamp <? timeWindow this)
            (timestamps this)
     ++ (if is_failure (response (invoke now args this)) then [] else [now]))%list.
Proof.
  unfold invoke; simpl.
  destruct (_ >=? maxRequests this); simpl.
  - symmetry; apply app_nil_r.
  - destruct (func _ args); reflexivity.
Qed.

Lemma invoke_config now args this :
  maxRequests (after (invoke now args this)) = maxRequests this
  /\ timeWindow (after (invoke now args this)) = timeWindow this
  /\ func (after (invoke now args this)) = func this.
Proof.
  unfold invoke; simpl.
  destruct (_ >=? maxRequests this); simpl; auto.
Qed.

(** The configuration never changes, and a message is shown only while
    the window is full. *)
Lemma reachable_invariant m w f this :
  reachable m w f this ->
  maxRequests this = m /\ timeWindow this = w /\ func this = f
  /\ (error this = None
      \/ maxRequests this <= Z.of_nat (List.length (timestamps this))).
Proof.
  induction 1 as [|this now args _ IH|this now1 now2 _ IH].
  - simpl; auto.
  - destruct IH as (Hm & Hw & Hf & _).
    destruct (invoke_config now args this) as (Cm & Cw & Cf).
    rewrite Cm, Cw, Cf. repeat split; try assumption.
    unfold invoke; simpl. rewrite Z.geb_leb.
    destruct (Z.leb_spec (maxRequests this)
                (Z.of_nat (List.length
                   (filter (fun timestamp => now - timestamp <? timeWindow this)
                           (timestamps this))))) as [H|H]; simpl.
    + right; exact H.
    + left; reflexivity.
  - destruct IH as (Hm & Hw & Hf & He).
    rewrite updateErrorTime_frame; simpl. repeat split; try assumption.
    rewrite updateErrorTime_error.
    destruct (snd (calculateRemainingTime now2 this)); [|left; reflexivity].
    rewrite Z.geb_leb.
    destruct (Z.leb_spec (maxRequests this)
                (Z.of_nat (List.length (timestamps this)))) as [H|H].
    + right; exact H.
    + exact He.
Qed.

End RateLimiterInvariants.

(** ** Admission *)

Section Admission.
Context {T A E : Type}.
Implicit Types this : RateLimiter T A E.

Lemma invoke_all_app (l1 l2 : list (Z * A)) this :
  invoke_all (l1 ++ l2) this
  = (fst (invoke_all l1 this)
       ++ fst (invoke_all l2 (snd (invoke_all l1 this))),
     snd (invoke_all l2 (snd (invoke_all l1 this))))%list.
Proof.
  revert this; induction l1 as [|[now args] l1 IH]; intros this; simpl.
  - destruct (invoke_all l2 this); reflexivity.
  - rewrite IH.
    destruct (invoke_all l1 (after (invoke now args this))) as [log1 s1].
    simpl. reflexivity.
Qed.

Lemma invoke_all_config (calls : list (Z * A)) this :
  maxRequests (snd (invoke_all calls this)) = maxRequests this
  /\ timeWindow (snd (invoke_all calls this)) = timeWindow this
  /\ func (snd (invoke_all calls this)) = func this.
Proof.
  revert this; induction calls as [|[now args] calls IH]; intros this; simpl.
  - auto.
  - specialize (IH (after (invoke now args this))).
    destruct (invoke_all calls (after (invoke now args this))) as [log s].
    simpl in *. destruct (invoke_config now args this) as (Cm & Cw & Cf).
    rewrite <- Cm, <- Cw, <- Cf. exact IH.
Qed.

Lemma invoke_all_reachable (calls : list (Z * A)) m w f this :
  reachable m w f this -> reachable m w f (snd (invoke_all calls this)).
Proof.
  revert this; induction calls as [|[now args] calls IH]; intros this R; simpl.
  - exact R.
  - specialize (IH _ (reachable_invoke m w f this now args R)).
    destruct (invoke_all calls (after (invoke now args this))); exact IH.
Qed.

(** Pruning at an earlier reading loses nothing a later reading keeps. *)
Lemma filter_window_twice (w earlier now : Z) (l : list Z) :
  earlier <= now ->
  filter (fun t => now - t <? w) (filter (fun t => earlier - t <? w) l)
  = filter (fun t => now - t <? w) l.
Proof.
  intros Hle. induction l as [|t l IH]; simpl; [reflexivity|].
  destruct (Z.ltb_spec (earlier - t) w) as [H1|H1]; simpl.
  - rewrite IH; reflexivity.
  - destruct (Z.ltb_spec (now - t) w) as [H2|H2]; [lia|exact IH].
Qed.

Lemma admitted_times_app (l1 l2 : list (Z * bool)) :
  admitted_times (l1 ++ l2) = (admitted_times l1 ++ admitted_times l2)%list.
Proof. unfold admitted_times. rewrite filter_app, map_app. reflexivity. Qed.

(** Seen through the window of a reading that no earlier call exceeded,
    the stored timestamps are the readings of all admitted calls. *)
Lemma stored_timestamps_are_history (m w : Z) (f : A -> Promise E T)
    (before : list (Z * A)) :
  forall now,
    Forall (fun c => fst c <= now) before ->
    filter (fun t => now - t <? w)
           (timestamps (snd (invoke_all before (new_RateLimiter m w f))))
    = filter (fun t => now - t <? w)
             (admitted_times (fst (invoke_all before (new_RateLimiter m w f)))).
Proof.
  induction before as [|[t args] before IH] using rev_ind; intros now Hall.
  - reflexivity.
  - apply Forall_app in Hall. destruct Hall as [Hb Ht].
    inversion Ht as [|? ? Hle _]; subst; simpl in Hle.
    rewrite invoke_all_app; simpl.
    set (past := invoke_all before (new_RateLimiter m w f)) in *.
    destruct (invoke_all_config before (new_RateLimiter m w f))
      as (_ & Cw & _); fold past in Cw; simpl in Cw.
    rewrite invoke_timestamps, Cw.
    rewrite admitted_times_app, !filter_app.
    rewrite filter_window_twice by exact Hle.
    rewrite (IH now Hb). f_equal.
    unfold admitted_times; simpl.
    destruct (is_failure (response (invoke t args (snd past)))); reflexivity.
Qed.

(** C1. Sliding-window admission.  A call of [invoke] is admitted if and
    only if, once the stored timestamps [t] with [now - t >= windowMs] are
    removed, fewer than [maxRequests] remain.  After any sequence of
    [invoke] calls on a fresh limiter, a further call, made at a clock
    reading [now] that no earlier call exceeded, is admitted if and only
    if fewer than [maxRequests] of the admitted calls have a reading [t]
    with [now - t < windowMs], and it is refused otherwise.  In particular
    the instance [limiter] (2 requests per 15000 ms), called at 0, 1, 2
    and 15001, answers admitted, admitted, refused, admitted. *)
Theorem invoke_sliding_window :
  (forall (this : RateLimiter T A E) (now : Z) (args : A),
      is_failure (response (invoke now args this)) = false
      <-> Z.of_nat (List.length
            (filter (fun t => negb (now - t >=? timeWindow this))
                    (timestamps this)))
          < maxRequests this)
  /\ (forall (m w : Z) (f : A -> Promise E T) (before : list (Z * A))
             (now : Z) (args : A),
         Forall (fun c => fst c <= now) before ->
         let past := invoke_all before (new_RateLimiter m w f) in
         (is_failure (response (invoke now args (snd past))) = false
          <-> Z.of_nat (List.length
                (filter (fun t => now - t <? w) (admitted_times (fst past))))
              < m)
         /\ (is_failure (response (invoke now args (snd past))) = true
             <-> m <= Z.of_nat (List.length
                   (filter (fun t => now - t <? w)
                           (admitted_times (fst past))))))
  /\ (forall (search : A -> Promise E T) (a1 a2 a3 a4 : A),
        fst (invoke_all [(0, a1); (1, a2); (2, a3); (15001, a4)]
                        (limiter search))
        = [(0, true); (1, true); (2, false); (15001, true)]).
Proof.
  split; [|split].
  - intros this now args. rewrite invoke_admitted_iff.
    rewrite (filter_ext (fun t => negb (now - t >=? timeWindow this))
                        (fun timestamp => now - timestamp <? timeWindow this)).
    + split; auto.
    + intros t. rewrite Z.geb_leb.
      destruct (Z.ltb_spec (now - t) (timeWindow this));
        destruct (Z.leb_spec (timeWindow this) (now - t)); simpl;
        try reflexivity; lia.
  - intros m w f before now args Hall past.
    pose proof (stored_timestamps_are_history m w f before now Hall) as Hh.
    fold past in Hh.
    destruct (invoke_all_config before (new_RateLimiter m w f))
      as (Cm & Cw & _); fold past in Cm, Cw; simpl in Cm, Cw.
    rewrite invoke_admitted_iff, invoke_refused_iff, Cm, Cw, Hh.
    split; reflexivity.
  - intros search a1 a2 a3 a4. unfold limiter; simpl.
    unfold invoke; simpl.
    destruct (search a1); simpl; destruct (search a2); simpl;
      destruct (search a4); reflexivity.
Qed.

End Admission.

(** ** The two ways out of [invoke] *)

Section InvokeOutcome.
Context {T A E : Type}.
Implicit Types this : RateLimiter T A E.

(** C2. A refused [invoke] does not call the wrapped lookup and appends
    no timestamp: the object it leaves is the object it found with the
    entries [t] such that [now - t >= timeWindow] dropped from the
    timestamps, every other field as it was, and the promise it returns
    is fulfilled with [{ type: "failure" }]. *)
Theorem invoke_refused_only_prunes now args this :
  is_failure (response (invoke now args this)) = true ->
  called (invoke now args this) = []
  /\ response (invoke now args this) = fulfilled failure
  /\ after (invoke now args this)
     = set_timestamps
         (filter (fun t => negb (now - t >=? timeWindow this))
                 (timestamps this))
         this.
Proof.
  intros Hf.
  replace (filter (fun t => negb (now - t >=? timeWindow this))
                  (timestamps this))
    with (filter (fun timestamp => now - timestamp <? timeWindow this)
                 (timestamps this)).
  - revert Hf. unfold invoke; simpl.
    destruct (_ >=? maxRequests this); simpl.
    + intros _; repeat split.
    + destruct (func _ args); simpl; discriminate.
  - apply filter_ext. intros t. rewrite Z.geb_leb.
    destruct (Z.ltb_spec (now - t) (timeWindow this));
      destruct (Z.leb_spec (timeWindow this) (now - t)); simpl;
      try reflexivity; lia.
Qed.

(** C3. An admitted [invoke] hands the outcome of the wrapped lookup on
    as it is: the lookup is called once, with the arguments of the call;
    when its promise is fulfilled with [v] the promise of [invoke] is
    fulfilled with [{ type: "success", data: v }], and when it is
    rejected the promise of [invoke] is rejected with the same reason,
    which is not a [{ type: "failure" }] answer. *)
Theorem invoke_passes_outcome_through now args this :
  Z.of_nat (List.length
    (filter (fun timestamp => now - timestamp <? timeWindow this)
            (timestamps this)))
  < maxRequests this ->
  called (invoke now args this) = [args]
  /\ (forall v, func this args = fulfilled v ->
                response (invoke now args this) = fulfilled (success v))
  /\ (forall reason, func this args = rejected reason ->
        response (invoke now args this) = rejected reason
        /\ is_failure (response (invoke now args this)) = false).
Proof.
  intros Hlt. unfold invoke; simpl. rewrite Z.geb_leb.
  destruct (Z.leb_spec (maxRequests this)
              (Z.of_nat (List.length
                 (filter (fun timestamp => now - timestamp <? timeWindow this)
                         (timestamps this))))) as [H|_]; [lia|]; simpl.
  split; [reflexivity|split].
  - intros v Hfn; rewrite Hfn; reflexivity.
  - intros reason Hfn; rewrite Hfn; split; reflexivity.
Qed.

End InvokeOutcome.

(** ** The polled error state *)

Section ErrorStateFacts.
Context {T A E : Type}.
Implicit Types this : RateLimiter T A E.

(** The field [error] after a poll whose two readings of the clock may
    differ: the message carries the remaining time of the first reading,
    and it stays only if the window is still open at the second. *)
Lemma updateErrorTime_two_readings m w f this now1 now2 :
  reachable m w f this ->
  now1 <= now2 ->
  error (updateErrorTime now1 now2 this)
  = match timestamps this with
    | [] => None
    | t0 :: _ =>
        if (Z.of_nat (List.length (timestamps this)) >=? m)
           && (now2 - t0 <? w)
        then Some (rate_exceeded
                     (Some (Math_ceil_div (w - (now1 - t0)) 1000)))
        else None
    end.
Proof.
  intros R Hle.
  destruct (reachable_invariant m w f this R) as (Hm & Hw & _ & He).
  rewrite updateErrorTime_error, !calculateRemainingTime_result, Hm, Hw.
  destruct (timestamps this) as [|t0 rest] eqn:Ets; [reflexivity|].
  destruct (Z.ltb_spec (now2 - t0) w) as [H2|H2];
    [|rewrite andb_false_r; reflexivity].
  rewrite andb_true_r.
  destruct (Z.ltb_spec (now1 - t0) w) as [H1|H1]; [|lia].
  rewrite Z.geb_leb in *.
  destruct (Z.leb_spec m (Z.of_nat (List.length (t0 :: rest)))) as [H|H];
    [reflexivity|].
  destruct He as [He|He]; [exact He|lia].
Qed.

(** C4. Polled at the time [now], a limiter the program can hold shows
    the error state the specification derives: limited, with
    [ceil((windowMs - (now - earliestTimestamp)) / 1000)] seconds
    remaining, exactly when the timestamps number at least [maxRequests]
    and the earliest of them is less than [windowMs] old, and none
    otherwise.  The seconds remaining of a limited state are the least
    whole number of seconds that covers the rest of the window, and at
    least 1. *)
Theorem updateErrorTime_matches_spec m w f this now :
  reachable m w f this ->
  error (updateErrorTime now now this) = shown (spec_errorState now this)
  /\ (error (updateErrorTime now now this) <> None
      <-> exists earliestTimestamp rest,
            timestamps this = earliestTimestamp :: rest
            /\ maxRequests this <= Z.of_nat (List.length (timestamps this))
            /\ now - earliestTimestamp < timeWindow this)
  /\ (forall earliestTimestamp rest remainingSeconds,
        timestamps this = earliestTimestamp :: rest ->
        spec_errorState now this = limited remainingSeconds ->
        1 <= remainingSeconds
        /\ 1000 * (remainingSeconds - 1)
           < timeWindow this - (now - earliestTimestamp)
           <= 1000 * remainingSeconds).
Proof.
  intros R.
  destruct (reachable_invariant m w f this R) as (Hm & Hw & _ & _).
  pose proof (updateErrorTime_two_readings m w f this now now R (Z.le_refl _))
    as Herr.
  unfold spec_errorState. rewrite Hm, Hw.
  destruct (timestamps this) as [|t0 rest] eqn:Ets.
  - rewrite Herr. repeat split.
    + intros H; contradiction.
    + intros (? & ? & H & _); discriminate.
    + discriminate.
    + discriminate.
    + discriminate.
  - rewrite Herr, Z.geb_leb.
    destruct (Z.leb_spec m (Z.of_nat (List.length (t0 :: rest)))) as [Hl|Hl];
      destruct (Z.ltb_spec (now - t0) w) as [Ht|Ht]; cbn [andb];
      (split; [try reflexivity|split]).
    + apply rate_exceeded_shown.
    + split; [|discriminate]. intros _. exists t0, rest. auto.
    + intros t l r Heq Hr. injection Heq as <- _. injection Hr as <-.
      pose proof (spec_ceil_seconds_bounds (w - (now - t0))) as Hb. lia.
    + split; [intros H; contradiction|].
      intros (t & l & Heq & _ & Hlt); inversion Heq; subst; lia.
    + discriminate.
    + split; [intros H; contradiction|].
      intros (t & l & Heq & Hge & _); inversion Heq; subst; simpl in *; lia.
    + discriminate.
    + split; [intros H; contradiction|].
      intros (t & l & Heq & Hge & _); inversion Heq; subst; simpl in *; lia.
    + discriminate.
Qed.

End ErrorStateFacts.

Section Polling.
Context {T A E : Type}.
Implicit Types this : RateLimiter T A E.

(** C7. Between two consecutive polls with no [invoke] in between, the
    first of which finds the limiter limited: the remaining time that
    [calculateRemainingTime] computes at the later reading is not above
    the one of the earlier reading, and at the later reading the
    remaining time is [null], and the error state none, exactly when the
    earliest timestamp is at least [timeWindow] old. *)
Theorem remaining_time_decreases_until_window_ends this now1 now2 message :
  error (updateErrorTime now1 now1 this) = Some message ->
  now1 <= now2 ->
  let polled := updateErrorTime now1 now1 this in
  exists earliestTimestamp rest remaining1,
    timestamps polled = earliestTimestamp :: rest
    /\ snd (calculateRemainingTime now1 this) = Some remaining1
    /\ (forall remaining2,
          snd (calculateRemainingTime now2 polled) = Some remaining2 ->
          remaining2 <= remaining1)
    /\ (snd (calculateRemainingTime now2 polled) = None
        <-> timeWindow this <= now2 - earliestTimestamp)
    /\ (error (updateErrorTime now2 now2 polled) = None
        <-> timeWindow this <= now2 - earliestTimestamp).
Proof.
  intros Hlim Hle polled.
  assert (Hts : timestamps polled = timestamps this)
    by (unfold polled; rewrite updateErrorTime_frame; reflexivity).
  assert (Hw : timeWindow polled = timeWindow this)
    by (unfold polled; rewrite updateErrorTime_frame; reflexivity).
  assert (Hmx : maxRequests polled = maxRequests this)
    by (unfold polled; rewrite updateErrorTime_frame; reflexivity).
  assert (Hshown : error polled = Some message) by exact Hlim.
  rewrite updateErrorTime_error in Hlim.
  rewrite (updateErrorTime_error now2 now2 polled), Hshown.
  rewrite !calculateRemainingTime_result, Hts, Hw, Hmx in *.
  destruct (timestamps this) as [|t0 rest]; [discriminate|].
  destruct (Z.ltb_spec (now1 - t0) (timeWindow this)) as [H1|H1];
    [|discriminate].
  exists t0, rest, (Math_ceil_div (timeWindow this - (now1 - t0)) 1000).
  split; [reflexivity|]. split; [reflexivity|].
  destruct (Z.ltb_spec (now2 - t0) (timeWindow this)) as [H2|H2].
  - split; [|split].
    + intros r2 Hr; inversion Hr; subst.
      apply Math_ceil_div_monotone; lia.
    + split; [discriminate|lia].
    + split; [|lia].
      destruct (_ >=? maxRequests this); discriminate.
  - split; [|split].
    + discriminate.
    + split; [intros _; exact H2|reflexivity].
    + split; [intros _; exact H2|reflexivity].
Qed.

End Polling.

Section PollingIsARead.
Context {T A E : Type}.
Implicit Types this : RateLimiter T A E.

Lemma updateErrorTime_again now this :
  updateErrorTime now now (updateErrorTime now now this)
  = updateErrorTime now now this.
Proof.
  remember (error (updateErrorTime now now this)) as shown_error eqn:He.
  assert (Hp : updateErrorTime now now this = set_error shown_error this)
    by (subst shown_error; apply updateErrorTime_frame).
  rewrite Hp.
  rewrite (updateErrorTime_frame now now (set_error shown_error this)).
  rewrite set_error_twice. f_equal.
  rewrite updateErrorTime_error, !calculateRemainingTime_result; simpl.
  rewrite updateErrorTime_error, !calculateRemainingTime_result in He.
  destruct (timestamps this) as [|t0 rest]; [symmetry; exact He|].
  destruct (now - t0 <? timeWindow this); [|symmetry; exact He].
  destruct (_ >=? maxRequests this); [symmetry; exact He|reflexivity].
Qed.

(** C8. Polling is idempotent: any number of polls at one clock reading
    leave the limiter, and so the error it shows, as the first of them
    does; and the error shown after a poll of a limiter the program can
    hold is determined by the clock reading and the stored timestamps. *)
Theorem updateErrorTime_idempotent :
  (forall this now (n : nat),
      Nat.iter (S n) (updateErrorTime now now) this
      = updateErrorTime now now this)
  /\ (forall m w f this1 this2 now,
        reachable m w f this1 -> reachable m w f this2 ->
        timestamps this1 = timestamps this2 ->
        error (updateErrorTime now now this1)
        = error (updateErrorTime now now this2)).
Proof.
  split.
  - intros this now n. induction n as [|n IH].
    + reflexivity.
    + change (Nat.iter (S (S n)) (updateErrorTime now now) this)
        with (updateErrorTime now now
                (Nat.iter (S n) (updateErrorTime now now) this)).
      rewrite IH. apply updateErrorTime_again.
  - intros m w f this1 this2 now R1 R2 Hts.
    rewrite (updateErrorTime_two_readings m w f this1 now now R1 (Z.le_refl _)).
    rewrite (updateErrorTime_two_readings m w f this2 now now R2 (Z.le_refl _)).
    rewrite Hts. reflexivity.
Qed.

(** C9. Reading the error state is a read as far as the timestamps go:
    neither [updateErrorTime] nor [calculateRemainingTime] removes, adds
    or reorders a stored timestamp, whatever the clock says, and the one
    field of the object either may change is [error]. *)
Theorem polling_keeps_timestamps this now1 now2 :
  timestamps (updateErrorTime now1 now2 this) = timestamps this
  /\ timestamps (fst (calculateRemainingTime now1 this)) = timestamps this
  /\ updateErrorTime now1 now2 this
     = set_error (error (updateErrorTime now1 now2 this)) this
  /\ fst (calculateRemainingTime now1 this)
     = set_error (error (fst (calculateRemainingTime now1 this))) this.
Proof.
  repeat split.
  - rewrite updateErrorTime_frame; reflexivity.
  - rewrite calculateRemainingTime_frame; reflexivity.
  - apply updateErrorTime_frame.
  - apply calculateRemainingTime_frame.
Qed.

(** C10. A limiter constructed with a non-negative [maxRequests] never
    stores more than [maxRequests] timestamps, whatever sequence of
    [invoke] and [updateErrorTime] calls it has served. *)
Theorem timestamps_bounded_by_maxRequests m w f this :
  0 <= m ->
  reachable m w f this ->
  Z.of_nat (List.length (timestamps this)) <= m.
Proof.
  intros Hm R. induction R as [|this now args R IH|this now1 now2 R IH].
  - simpl; lia.
  - destruct (reachable_invariant m w f this R) as (Cm & _).
    rewrite invoke_timestamps, length_app.
    pose proof (filter_length_le
                  (fun timestamp => now - timestamp <? timeWindow this)
                  (timestamps this)) as Hfl.
    destruct (is_failure (response (invoke now args this))) eqn:Hf; simpl.
    + lia.
    + apply invoke_admitted_iff in Hf. lia.
  - rewrite updateErrorTime_frame; simpl. exact IH.
Qed.

End PollingIsARead.

(* ===================================================================== *)
(** * Part III: the debounced dispatcher                                 *)
(* ===================================================================== *)

Section DebounceFacts.

Lemma query_length_empty (s : string) :
  (0 <? String.length s)%nat = false <-> s = ""%string.
Proof.
  destruct s; simpl; split; intros H; try reflexivity; discriminate.
Qed.

Lemma query_length_nonempty (s : string) :
  s <> ""%string -> (0 <? String.length s)%nat = true.
Proof.
  intros H. destruct (0 <? String.length s)%nat eqn:Hl; [reflexivity|].
  apply query_length_empty in Hl. contradiction.
Qed.

(** In its range a delay is waited out in full. *)
Lemma setTimeout_delay_in_range (d : Z) :
  0 <= d < 2 ^ 31 -> setTimeout_delay d = d.
Proof.
  unfold setTimeout_delay, ToInt32.
  change (2 ^ 31) with 2147483648. change (2 ^ 32) with 4294967296.
  intros H. rewrite Z.mod_small by lia. lia.
Qed.

Lemma advance_settled now h : settled_at now h -> advance now h = h.
Proof.
  unfold settled_at, advance. destruct (timers h) as [|t rest];
    [reflexivity|].
  intros H. inversion H as [|? ? Hlt _]; subst. simpl.
  destruct (Z.leb_spec (due t) now); [lia|reflexivity].
Qed.

Lemma advance_idle now h : timers h = [] -> advance now h = h.
Proof. intros H. unfold advance. rewrite H. reflexivity. Qed.

(** The one live timeout fires once it is due. *)
Lemma advance_fires now h t :
  timers h = [t] -> due t <= now ->
  advance now h = callback (closure t) (clearTimeout (handle t) h)
  /\ timers (advance now h) = [].
Proof.
  intros Hh Hd. unfold advance. rewrite Hh. simpl.
  destruct (Z.leb_spec (due t) now); [|lia].
  split; [reflexivity|].
  unfold callback. destruct (0 <? String.length (query (closure t)))%nat;
    simpl; rewrite Hh; simpl; rewrite Nat.eqb_refl; reflexivity.
Qed.

Lemma useDebounce_changed now p h :
  same_deps (deps h) p = false ->
  useDebounce now p h = effect now p (cleanup h).
Proof. intros H. unfold useDebounce. rewrite H. reflexivity. Qed.

Lemma useDebounce_unchanged now p h :
  same_deps (deps h) p = true -> useDebounce now p h = h.
Proof. intros H. unfold useDebounce. rewrite H. reflexivity. Qed.

(** The cleanup of a tidy hook leaves no live timeout. *)
Lemma cleanup_timers h : tidy h -> timers (cleanup h) = [].
Proof.
  unfold tidy, cleanup, clearTimeout; simpl.
  induction (timers h) as [|t rest IH]; intros Ht; [reflexivity|].
  simpl. rewrite (Ht t (or_introl eq_refl)), Nat.eqb_refl. simpl.
  apply IH. intros t' Hin. apply Ht. right; exact Hin.
Qed.

(** What a run of the effect after the cleanup leaves of a tidy hook: the
    one timeout of that run. *)
Lemma update_tidy now p h :
  tidy h ->
  effect now p (cleanup h)
  = {| value := value h; deps := p; handler := next_handle h;
       timers := [ {| handle := next_handle h;
                      due := now + setTimeout_delay (delay p);
                      closure := p |} ];
       next_handle := S (next_handle h);
       suspended := suspended h; lookups := lookups h;
       published := published h |}.
Proof.
  intros Ht. unfold effect, setTimeout.
  rewrite (cleanup_timers h Ht). reflexivity.
Qed.

Lemma tidy_single (h : Hook) (t : Timeout) :
  timers h = [t] -> handle t = handler h -> tidy h.
Proof.
  intros Hh He t' Hin. rewrite Hh in Hin.
  destruct Hin as [<-|[]]. exact He.
Qed.

Lemma tidy_idle (h : Hook) : timers h = [] -> tidy h.
Proof. intros Hh t Hin. rewrite Hh in Hin. destruct Hin. Qed.

(** [tidy] is an invariant of the hook. *)
Lemma tidy_mount now p : tidy (mount now p).
Proof. intros t [<-|[]]. reflexivity. Qed.

Lemma tidy_useDebounce now p h : tidy h -> tidy (useDebounce now p h).
Proof.
  intros Ht. unfold useDebounce. destruct (same_deps (deps h) p);
    [exact Ht|].
  rewrite (update_tidy now p h Ht). intros t [<-|[]]. reflexivity.
Qed.

Lemma tidy_clearTimeout id h : tidy h -> tidy (clearTimeout id h).
Proof.
  intros Ht t Hin. simpl in Hin. apply filter_In in Hin.
  apply Ht; tauto.
Qed.

Lemma tidy_callback c h : tidy h -> tidy (callback c h).
Proof.
  intros Ht. unfold callback.
  destruct (0 <? String.length (query c))%nat; exact Ht.
Qed.

Lemma tidy_fire_due now queue h : tidy h -> tidy (fire_due now queue h).
Proof.
  revert h; induction queue as [|t rest IH]; intros h Ht; simpl;
    [exact Ht|].
  destruct (due t <=? now); [|exact Ht].
  apply IH, tidy_callback, tidy_clearTimeout, Ht.
Qed.

Lemma tidy_advance now h : tidy h -> tidy (advance now h).
Proof. apply tidy_fire_due. Qed.

Lemma tidy_settle {E : Type} k (outcome : Promise E PersonsArray) h :
  tidy h -> tidy (settle k outcome h).
Proof.
  intros Ht. unfold settle.
  destruct (nth_error (suspended h) k); [|exact Ht].
  destruct outcome; exact Ht.
Qed.

Lemma tidy_renders events h : tidy h -> tidy (renders events h).
Proof.
  revert h; induction events as [|[now p] rest IH]; intros h Ht; simpl;
    [exact Ht|].
  apply IH, tidy_useDebounce, tidy_advance, Ht.
Qed.

(** A lookup that settles sets no timeout and calls no lookup. *)
Lemma settle_frame {E : Type} k (outcome : Promise E PersonsArray) h :
  timers (settle k outcome h) = timers h
  /\ lookups (settle k outcome h) = lookups h
  /\ deps (settle k outcome h) = deps h.
Proof.
  unfold settle. destruct (nth_error (suspended h) k); [|repeat split].
  destruct outcome; repeat split.
Qed.

Lemma last_cons {X : Type} (x d : X) (l : list X) :
  last (x :: l) d = last l x.
Proof.
  revert x d; induction l as [|y l IH]; intros x d; [reflexivity|].
  change (last (x :: y :: l) d) with (last (y :: l) d).
  rewrite (IH y d), (IH y x). reflexivity.
Qed.

(** Through a burst no timeout fires: every render clears the timeout of
    the one before, and what is left is the timeout of the last. *)
Lemma renders_rapid (events : list (Z * Props)) :
  forall (prev : Props) (since : Z) (h : Hook),
    deps h = prev ->
    0 <= delay prev < 2 ^ 31 ->
    timers h = [ {| handle := handler h; due := since + delay prev;
                    closure := prev |} ] ->
    rapid prev since events ->
    changing prev events ->
    in_range events ->
    let h' := renders events h in
    let final := last events (since, prev) in
    lookups h' = lookups h
    /\ published h' = published h
    /\ suspended h' = suspended h
    /\ value h' = value h
    /\ deps h' = snd final
    /\ timers h' = [ {| handle := handler h';
                        due := fst final + delay (snd final);
                        closure := snd final |} ].
Proof.
  induction events as [|[now p] rest IH]; intros prev since h Hd Hr Hh Hrap
    Hch Hin.
  - simpl. rewrite Hh, Hd. repeat split.
  - destruct Hrap as (Hnow & Hrest). destruct Hch as (Hch & Hchrest).
    inversion Hin as [|? ? Hp Hinrest]; subst. simpl in Hp.
    assert (Ht : tidy h) by (apply (tidy_single h _ Hh); reflexivity).
    cbn [renders]. cbv zeta. rewrite last_cons.
    rewrite advance_settled
      by (unfold settled_at; rewrite Hh; repeat constructor; simpl; lia).
    rewrite (useDebounce_changed now p h Hch), (update_tidy now p h Ht).
    rewrite (setTimeout_delay_in_range _ Hp).
    match goal with
    | |- context [renders rest ?h1] =>
        specialize (IH p now h1 eq_refl Hp eq_refl Hrest Hchrest Hinrest)
    end.
    exact IH.
Qed.

(** A burst starting at a tidy hook leaves only the timeout of its last
    render, and changes no log. *)
Lemma renders_burst (h : Hook) (earlier : list (Z * Props)) tn pn :
  tidy h ->
  burst h (earlier ++ [(tn, pn)]) ->
  changing (deps h) (earlier ++ [(tn, pn)]) ->
  in_range (earlier ++ [(tn, pn)]) ->
  let h' := renders (earlier ++ [(tn, pn)]) h in
  lookups h' = lookups h
  /\ published h' = published h
  /\ suspended h' = suspended h
  /\ value h' = value h
  /\ deps h' = pn
  /\ timers h' = [ {| handle := handler h'; due := tn + delay pn;
                      closure := pn |} ].
Proof.
  intros Ht Hb Hch Hin.
  destruct earlier as [|[t1 p1] earlier]; cbn [app burst changing] in *.
  - destruct Hb as (Hs & _). destruct Hch as (Hch & _).
    inversion Hin as [|? ? Hp _]; subst. simpl in Hp.
    cbn [renders]. cbv zeta.
    rewrite advance_settled by exact Hs.
    rewrite (useDebounce_changed tn pn h Hch), (update_tidy tn pn h Ht).
    rewrite (setTimeout_delay_in_range _ Hp). repeat split.
  - destruct Hb as (Hs & Hr). destruct Hch as (Hch & Hchrest).
    inversion Hin as [|? ? Hp Hinrest]; subst. simpl in Hp.
    cbn [renders]. cbv zeta.
    rewrite advance_settled by exact Hs.
    rewrite (useDebounce_changed t1 p1 h Hch), (update_tidy t1 p1 h Ht).
    rewrite (setTimeout_delay_in_range _ Hp).
    match goal with
    | |- context [renders _ ?h1] =>
        pose proof (renders_rapid (earlier ++ [(tn, pn)]) p1 t1 h1
                      eq_refl Hp eq_refl Hr Hchrest Hinrest) as H
    end.
    cbv zeta in H. rewrite last_last in H. exact H.
Qed.

End DebounceFacts.

Section Debounce.

(** C5, as amended.  Take a burst of renders of a hook, each changing the
    dependency list (as a render with a new query does), each less than
    the delay after the one before, with every delay in the range
    [setTimeout] waits out in full, and let at least the last delay pass
    after it.  Then only the timeout of the last render has fired, and
    none is left to fire.  If the last query is non-empty, exactly one
    lookup call has been made, with that query, and nothing is published
    until it settles; if the last query is empty, no lookup call has been
    made and the baseline of the last render is published.  No earlier
    query of the burst produces a lookup call or a published value, and a
    later render that changes no dependency changes nothing, nor does
    the settling of a lookup cause another call. *)
Theorem debounce_last_writer_wins (h : Hook) (earlier : list (Z * Props))
    (tn : Z) (pn : Props) (T : Z) :
  tidy h ->
  burst h (earlier ++ [(tn, pn)]) ->
  changing (deps h) (earlier ++ [(tn, pn)]) ->
  in_range (earlier ++ [(tn, pn)]) ->
  tn + delay pn <= T ->
  let final := advance T (renders (earlier ++ [(tn, pn)]) h) in
  timers final = []
  /\ (forall T', advance T' final = final)
  /\ (forall t' p', same_deps pn p' = true -> useDebounce t' p' final = final)
  /\ (forall (E : Type) (k : nat) (outcome : Promise E PersonsArray) T',
        lookups (advance T' (settle k outcome final)) = lookups final)
  /\ (query pn <> ""%string ->
      lookups final = (lookups h ++ [(targetFunction pn, query pn)])%list
      /\ suspended final = (suspended h ++ [pn])%list
      /\ published final = published h
      /\ value final = value h)
  /\ (query pn = ""%string ->
      lookups final = lookups h
      /\ suspended final = suspended h
      /\ published final = (published h ++ [initialValue pn])%list
      /\ value final = initialValue pn).
Proof.
  intros Ht Hb Hch Hin HT final.
  destruct (renders_burst h earlier tn pn Ht Hb Hch Hin)
    as (Hl & Hp & Hs & Hv & Hd & Htm).
  destruct (advance_fires T _ _ Htm HT) as (Hfire & Hnone).
  fold final in Hfire, Hnone.
  assert (Hdeps : deps final = pn).
  { rewrite Hfire. cbn [closure handle]. unfold callback.
    destruct (0 <? String.length (query pn))%nat; simpl; exact Hd. }
  split; [exact Hnone|].
  split; [intros T'; apply advance_idle; exact Hnone|].
  split; [intros t' p' Hsame; apply useDebounce_unchanged;
          rewrite Hdeps; exact Hsame|].
  split.
  { intros E k outcome T'.
    destruct (settle_frame k outcome final) as (Hst & Hsl & _).
    rewrite advance_idle by (rewrite Hst; exact Hnone). exact Hsl. }
  rewrite Hfire. cbn [closure handle]. unfold callback.
  destruct (0 <? String.length (query pn))%nat eqn:Hq; simpl.
  - rewrite Hl, Hp, Hs, Hv. split.
    + intros _; repeat split.
    + intros He. apply query_length_empty in He. congruence.
  - apply query_length_empty in Hq. rewrite Hl, Hp, Hs. split.
    + intros Hne; contradiction.
    + intros _; repeat split.
Qed.

(** Once the lookup of the last query settles, its result is what is
    published. *)
Lemma settle_publishes {E : Type} (h : Hook) (c : Props)
    (result : PersonsArray) :
  suspended h = [c] ->
  published (settle (E := E) 0 (fulfilled result) h)
  = (published h ++ [result])%list
  /\ value (settle (E := E) 0 (fulfilled result) h) = result
  /\ suspended (settle (E := E) 0 (fulfilled result) h) = [].
Proof.
  intros Hs. unfold settle. rewrite Hs; simpl. repeat split.
Qed.

(** C6, as amended.  When a render brings an empty query after a non-empty
    one, with a delay in the range [setTimeout] waits out in full, nothing
    is decided when the timeout is set: no lookup is called, no value
    published, and the timeout holds the render's variables.  Before the
    delay has passed nothing happens; once it has, the baseline of that
    render is published and the lookup is still not called. *)
Theorem empty_query_waits_full_delay (h : Hook) (now : Z) (p : Props) :
  tidy h ->
  query (deps h) <> ""%string ->
  query p = ""%string ->
  0 <= delay p < 2 ^ 31 ->
  let scheduled := useDebounce now p h in
  timers scheduled
  = [ {| handle := next_handle h; due := now + delay p; closure := p |} ]
  /\ lookups scheduled = lookups h
  /\ published scheduled = published h
  /\ value scheduled = value h
  /\ (forall t, t < now + delay p -> advance t scheduled = scheduled)
  /\ (forall t, now + delay p <= t ->
        lookups (advance t scheduled) = lookups h
        /\ published (advance t scheduled)
           = (published h ++ [initialValue p])%list
        /\ value (advance t scheduled) = initialValue p
        /\ timers (advance t scheduled) = []).
Proof.
  intros Ht Hprev Hq Hr scheduled.
  assert (Hch : same_deps (deps h) p = false).
  { unfold same_deps.
    destruct (String.eqb_spec (query (deps h)) (query p)) as [He|_];
      [congruence|reflexivity]. }
  unfold scheduled.
  rewrite (useDebounce_changed now p h Hch), (update_tidy now p h Ht).
  rewrite (setTimeout_delay_in_range _ Hr).
  split; [reflexivity|]. split; [reflexivity|]. split; [reflexivity|].
  split; [reflexivity|]. split.
  - intros t Hlt. apply advance_settled. unfold settled_at; simpl.
    repeat constructor; simpl; lia.
  - intros t Hle.
    match goal with
    | |- context [advance t ?s] =>
        destruct (advance_fires t s
                    {| handle := next_handle h; due := now + delay p;
                       closure := p |} eq_refl Hle) as (Hfire & Hnone)
    end.
    repeat split; try exact Hnone;
      rewrite Hfire; cbn [closure handle]; unfold callback;
      rewrite Hq; reflexivity.
Qed.

End Debounce.

(* ===================================================================== *)
(** * Part IV: the statements at work                                    *)
(* ===================================================================== *)

Example full_limiter_shows_14_seconds :
  error (updateErrorTime 1000 1000 full_limiter)
  = Some "Rate exceeded, please wait 14 seconds."%string.
Proof. reflexivity. Qed.

Example typing_ali_makes_one_lookup :
  lookups (advance 1450 (renders typing_ali idle_hook))
  = [(autocomplete, "ali"%string)].
Proof. reflexivity. Qed.

Lemma full_limiter_reachable : reachable 2 15000 no_results full_limiter.
Proof.
  unfold full_limiter. apply invoke_all_reachable. apply reachable_new.
Qed.

(** The third search of the concrete run is refused, the one at 15001
    admitted. *)
Lemma invoke_sliding_window_witness :
  Forall (fun c : Z * string => fst c <= 15001)
         [(0, "ali"%string); (1, "bob"%string); (2, "cha"%string)]
  /\ is_failure
       (response
          (invoke 15001 "dia"%string
             (snd (invoke_all
                     [(0, "ali"%string); (1, "bob"%string); (2, "cha"%string)]
                     (new_RateLimiter 2 15000 no_results)))))
     = false.
Proof.
  assert (Hall : Forall (fun c : Z * string => fst c <= 15001)
                   [(0, "ali"%string); (1, "bob"%string); (2, "cha"%string)])
    by (repeat constructor; simpl; lia).
  split; [exact Hall|].
  apply (proj1 (proj1 (proj2 invoke_sliding_window) 2 15000 no_results _ 15001
                  "dia"%string Hall)).
  vm_compute. reflexivity.
Defined.

Lemma invoke_refused_only_prunes_witness :
  is_failure (response (invoke 2 "cha"%string full_limiter)) = true
  /\ called (invoke 2 "cha"%string full_limiter) = []
  /\ timestamps (after (invoke 2 "cha"%string full_limiter)) = [0; 1].
Proof.
  assert (H : is_failure (response (invoke 2 "cha"%string full_limiter)) = true)
    by reflexivity.
  destruct (invoke_refused_only_prunes 2 "cha"%string full_limiter H)
    as (Hc & _ & Ha).
  split; [exact H|]. split; [exact Hc|].
  rewrite Ha. reflexivity.
Defined.

Lemma invoke_passes_outcome_through_witness :
  Z.of_nat (List.length
    (filter (fun timestamp => 0 - timestamp <? timeWindow (limiter no_results))
            (timestamps (limiter no_results))))
  < maxRequests (limiter no_results)
  /\ response (invoke 0 "ali"%string (limiter no_results))
     = fulfilled (success []).
Proof.
  assert (H : Z.of_nat (List.length
                (filter (fun timestamp =>
                           0 - timestamp <? timeWindow (limiter no_results))
                        (timestamps (limiter no_results))))
              < maxRequests (limiter no_results))
    by (simpl; lia).
  split; [exact H|].
  apply (proj1 (proj2 (invoke_passes_outcome_through 0 "ali"%string
                         (limiter no_results) H))).
  reflexivity.
Defined.

Lemma updateErrorTime_matches_spec_witness :
  reachable 2 15000 no_results full_limiter
  /\ error (updateErrorTime 1000 1000 full_limiter)
     = Some "Rate exceeded, please wait 14 seconds."%string
  /\ error (updateErrorTime 14001 14001 full_limiter)
     = Some "Rate exceeded, please wait 1 seconds."%string
  /\ error (updateErrorTime 15000 15000 full_limiter) = None.
Proof.
  split; [exact full_limiter_reachable|].
  rewrite (proj1 (updateErrorTime_matches_spec 2 15000 no_results full_limiter
                    1000 full_limiter_reachable)).
  rewrite (proj1 (updateErrorTime_matches_spec 2 15000 no_results full_limiter
                    14001 full_limiter_reachable)).
  rewrite (proj1 (updateErrorTime_matches_spec 2 15000 no_results full_limiter
                    15000 full_limiter_reachable)).
  repeat split.
Defined.

Lemma remaining_time_decreases_until_window_ends_witness :
  error (updateErrorTime 1000 1000 full_limiter)
  = Some "Rate exceeded, please wait 14 seconds."%string
  /\ 1000 <= 2000
  /\ exists earliestTimestamp rest remaining1,
       timestamps (updateErrorTime 1000 1000 full_limiter)
       = earliestTimestamp :: rest
       /\ snd (calculateRemainingTime 1000 full_limiter) = Some remaining1
       /\ (forall remaining2,
             snd (calculateRemainingTime 2000
                    (updateErrorTime 1000 1000 full_limiter))
             = Some remaining2 ->
             remaining2 <= remaining1).
Proof.
  assert (H1 : error (updateErrorTime 1000 1000 full_limiter)
               = Some "Rate exceeded, please wait 14 seconds."%string)
    by reflexivity.
  assert (H2 : 1000 <= 2000) by lia.
  split; [exact H1|]. split; [exact H2|].
  destruct (remaining_time_decreases_until_window_ends full_limiter 1000 2000
              _ H1 H2) as (t0 & rest & r1 & Hts & Hr1 & Hmono & _).
  exists t0, rest, r1. auto.
Defined.

Lemma updateErrorTime_idempotent_witness :
  reachable 2 15000 no_results full_limiter
  /\ reachable 2 15000 no_results (updateErrorTime 500 500 full_limiter)
  /\ timestamps full_limiter = timestamps (updateErrorTime 500 500 full_limiter)
  /\ error (updateErrorTime 1000 1000 full_limiter)
     = error (updateErrorTime 1000 1000 (updateErrorTime 500 500 full_limiter)).
Proof.
  assert (R2 : reachable 2 15000 no_results (updateErrorTime 500 500 full_limiter))
    by (apply reachable_updateErrorTime; exact full_limiter_reachable).
  assert (Hts : timestamps full_limiter
                = timestamps (updateErrorTime 500 500 full_limiter))
    by reflexivity.
  split; [exact full_limiter_reachable|]. split; [exact R2|].
  split; [exact Hts|].
  exact (proj2 updateErrorTime_idempotent 2 15000 no_results full_limiter _ 1000
           full_limiter_reachable R2 Hts).
Defined.

Lemma timestamps_bounded_by_maxRequests_witness :
  0 <= 2
  /\ reachable 2 15000 no_results full_limiter
  /\ Z.of_nat (List.length (timestamps full_limiter)) <= 2.
Proof.
  assert (H : 0 <= 2) by lia.
  split; [exact H|]. split; [exact full_limiter_reachable|].
  exact (timestamps_bounded_by_maxRequests 2 15000 no_results full_limiter H
           full_limiter_reachable).
Defined.

Lemma idle_hook_tidy : tidy idle_hook.
Proof. apply tidy_advance, tidy_mount. Qed.

Lemma typed_ali_tidy : tidy (advance 1450 (renders typing_ali idle_hook)).
Proof. apply tidy_advance, tidy_renders, idle_hook_tidy. Qed.

(** The burst "a", "al", "ali" makes one lookup call, with "ali". *)
Lemma debounce_last_writer_wins_witness :
  tidy idle_hook
  /\ burst idle_hook
        ([(1000, App_arguments 1 "a"); (1100, App_arguments 2 "al")]
           ++ [(1200, App_arguments 3 "ali")])
  /\ changing (deps idle_hook)
        ([(1000, App_arguments 1 "a"); (1100, App_arguments 2 "al")]
           ++ [(1200, App_arguments 3 "ali")])
  /\ in_range
        ([(1000, App_arguments 1 "a"); (1100, App_arguments 2 "al")]
           ++ [(1200, App_arguments 3 "ali")])
  /\ 1200 + delay (App_arguments 3 "ali") <= 1450
  /\ lookups
       (advance 1450
          (renders ([(1000, App_arguments 1 "a"); (1100, App_arguments 2 "al")]
                      ++ [(1200, App_arguments 3 "ali")])
                   idle_hook))
     = [(autocomplete, "ali"%string)].
Proof.
  assert (Hb : burst idle_hook
                 ([(1000, App_arguments 1 "a"); (1100, App_arguments 2 "al")]
                    ++ [(1200, App_arguments 3 "ali")])).
  { simpl. unfold settled_at; simpl. repeat split; try constructor; lia. }
  assert (Hch : changing (deps idle_hook)
                 ([(1000, App_arguments 1 "a"); (1100, App_arguments 2 "al")]
                    ++ [(1200, App_arguments 3 "ali")]))
    by (simpl; repeat split).
  assert (Hin : in_range
                 ([(1000, App_arguments 1 "a"); (1100, App_arguments 2 "al")]
                    ++ [(1200, App_arguments 3 "ali")]))
    by (simpl; repeat constructor; simpl; lia).
  assert (HT : 1200 + delay (App_arguments 3 "ali") <= 1450)
    by (simpl; lia).
  split; [exact idle_hook_tidy|]. split; [exact Hb|]. split; [exact Hch|].
  split; [exact Hin|]. split; [exact HT|].
  destruct (debounce_last_writer_wins idle_hook _ 1200 _ 1450
              idle_hook_tidy Hb Hch Hin HT) as (_ & _ & _ & _ & Hne & _).
  apply Hne. simpl. discriminate.
Defined.

(** C5 as the specification words it fails, and each condition of the
    amended statement is needed.
    - Without the case of the empty query: after "a" at 1000 and "" at
      1100 the timeout of 1350 resets the value to the baseline and no
      lookup call is made.
    - Without the renders changing a dependency: "a" at 1000, the same
      arguments again at 1200, "b" at 1400; the second render sets no
      timeout, the first timeout fires at 1250, and both "a" and "b" are
      looked up.
    - Without the range of the delay: with a delay of 2^31 the timeout of
      "a", set at 1000, is due at once and has fired when "al" comes at
      1100; both are looked up.
    - In [App] the render that follows the publication of the result for
      "ali" passes a new array as the baseline (line 143), so the lookup
      of "ali" is called again with no input in between. *)
Lemma one_lookup_per_burst_fails :
  ~ (forall (h : Hook) (earlier : list (Z * Props)) (tn : Z) (pn : Props)
            (T : Z),
        tidy h ->
        burst h (earlier ++ [(tn, pn)]) ->
        changing (deps h) (earlier ++ [(tn, pn)]) ->
        in_range (earlier ++ [(tn, pn)]) ->
        tn + delay pn <= T ->
        lookups (advance T (renders (earlier ++ [(tn, pn)]) h))
        = (lookups h ++ [(targetFunction pn, query pn)])%list)
  /\ ~ (forall (h : Hook) (earlier : list (Z * Props)) (tn : Z) (pn : Props)
               (T : Z),
          tidy h ->
          burst h (earlier ++ [(tn, pn)]) ->
          in_range (earlier ++ [(tn, pn)]) ->
          query pn <> ""%string ->
          tn + delay pn <= T ->
          lookups (advance T (renders (earlier ++ [(tn, pn)]) h))
          = (lookups h ++ [(targetFunction pn, query pn)])%list)
  /\ ~ (forall (h : Hook) (earlier : list (Z * Props)) (tn : Z) (pn : Props)
               (T : Z),
          tidy h ->
          burst h (earlier ++ [(tn, pn)]) ->
          changing (deps h) (earlier ++ [(tn, pn)]) ->
          query pn <> ""%string ->
          tn + delay pn <= T ->
          lookups (advance T (renders (earlier ++ [(tn, pn)]) h))
          = (lookups h ++ [(targetFunction pn, query pn)])%list)
  /\ lookups
       (advance 2200
          (useDebounce 1950 (App_arguments 4 "ali")
             (settle (E := unit) 0
                (fulfilled {| address := 10%nat; elements := [] |})
                (advance 1450 (renders typing_ali idle_hook)))))
     <> [(autocomplete, "ali"%string)].
Proof.
  split; [|split; [|split]].
  - intros claim.
    specialize (claim idle_hook [(1000, App_arguments 1 "a")] 1100
                  (App_arguments 2 "") 1350 idle_hook_tidy).
    assert (Hb : burst idle_hook
                   ([(1000, App_arguments 1 "a")]
                      ++ [(1100, App_arguments 2 "")])).
    { simpl. unfold settled_at; simpl. repeat split; try constructor; lia. }
    specialize (claim Hb ltac:(simpl; repeat split)
                  ltac:(simpl; repeat constructor; simpl; lia)
                  ltac:(simpl; lia)).
    vm_compute in claim. discriminate claim.
  - intros claim.
    specialize (claim idle_hook
                  [(1000, App_arguments 1 "a"); (1200, App_arguments 1 "a")]
                  1400 (App_arguments 2 "b") 1650 idle_hook_tidy).
    assert (Hb : burst idle_hook
                   ([(1000, App_arguments 1 "a"); (1200, App_arguments 1 "a")]
                      ++ [(1400, App_arguments 2 "b")])).
    { simpl. unfold settled_at; simpl. repeat split; try constructor; lia. }
    specialize (claim Hb ltac:(simpl; repeat constructor; simpl; lia)
                  ltac:(simpl; discriminate) ltac:(simpl; lia)).
    vm_compute in claim. discriminate claim.
  - intros claim.
    specialize (claim idle_hook
                  [(1000, with_delay (2 ^ 31) (App_arguments 1 "a"))]
                  1100 (with_delay (2 ^ 31) (App_arguments 2 "al"))
                  (1100 + 2 ^ 31) idle_hook_tidy).
    assert (Hb : burst idle_hook
                   ([(1000, with_delay (2 ^ 31) (App_arguments 1 "a"))]
                      ++ [(1100, with_delay (2 ^ 31) (App_arguments 2 "al"))])).
    { simpl. unfold settled_at; simpl. repeat split; try constructor; lia. }
    specialize (claim Hb ltac:(simpl; repeat split)
                  ltac:(simpl; discriminate) ltac:(simpl; lia)).
    vm_compute in claim. discriminate claim.
  - vm_compute. discriminate.
Qed.

Lemma empty_query_waits_full_delay_witness :
  tidy (advance 1450 (renders typing_ali idle_hook))
  /\ query (deps (advance 1450 (renders typing_ali idle_hook))) <> ""%string
  /\ query (App_arguments 4 "") = ""%string
  /\ 0 <= delay (App_arguments 4 "") < 2 ^ 31
  /\ (forall t, t < 2000 + delay (App_arguments 4 "") ->
        advance t (useDebounce 2000 (App_arguments 4 "")
                     (advance 1450 (renders typing_ali idle_hook)))
        = useDebounce 2000 (App_arguments 4 "")
            (advance 1450 (renders typing_ali idle_hook)))
  /\ value (advance 2250 (useDebounce 2000 (App_arguments 4 "")
                            (advance 1450 (renders typing_ali idle_hook))))
     = initialValue (App_arguments 4 "").
Proof.
  assert (H1 : query (deps (advance 1450 (renders typing_ali idle_hook)))
               <> ""%string)
    by (simpl; discriminate).
  assert (H2 : query (App_arguments 4 "") = ""%string) by reflexivity.
  assert (H3 : 0 <= delay (App_arguments 4 "") < 2 ^ 31) by (simpl; lia).
  split; [exact typed_ali_tidy|]. split; [exact H1|]. split; [exact H2|].
  split; [exact H3|].
  destruct (empty_query_waits_full_delay
              (advance 1450 (renders typing_ali idle_hook)) 2000
              (App_arguments 4 "") typed_ali_tidy H1 H2 H3)
    as (_ & _ & _ & _ & Hwait & Hfire).
  split; [exact Hwait|].
  apply (Hfire 2250). simpl; lia.
Defined.

(** C6 as the specification words it fails for a delay [setTimeout] does
    not wait out: with a delay of 2^31 ms the render of the empty query at
    2000 sets a timeout that is due at once, and the baseline is published
    at 2000. *)
Lemma huge_delay_is_not_waited_out :
  ~ (forall (h : Hook) (now : Z) (p : Props) (t : Z),
        tidy h ->
        query (deps h) <> ""%string ->
        query p = ""%string ->
        0 <= delay p ->
        t < now + delay p ->
        published (advance t (useDebounce now p h)) = published h).
Proof.
  intros claim.
  specialize (claim (advance 1450 (renders typing_ali idle_hook)) 2000
                (with_delay (2 ^ 31) (App_arguments 4 "")) 2000
                typed_ali_tidy).
  specialize (claim ltac:(simpl; discriminate) eq_refl ltac:(simpl; lia)
                ltac:(simpl; lia)).
  vm_compute in claim. discriminate claim.
Qed.

(** The lookup of "ali" settles at 1950 and its result is published; that
    makes [App] render again.  The render passes a new array as the
    baseline (line 143), the dependency list changes, a new timeout is set
    and at 2200 the lookup is called a second time.  A render that passed
    the same baseline would set none. *)
Example rerender_with_fresh_baseline_repeats_lookup :
  lookups
    (advance 2200
       (useDebounce 1950 (App_arguments 4 "ali")
          (settle (E := unit) 0
             (fulfilled {| address := 10%nat; elements := [] |})
             (advance 1450 (renders typing_ali idle_hook)))))
  = [(autocomplete, "ali"%string); (autocomplete, "ali"%string)]
  /\ lookups
       (advance 2200
          (useDebounce 1950 (App_arguments 3 "ali")
             (settle (E := unit) 0
                (fulfilled {| address := 10%nat; elements := [] |})
                (advance 1450 (renders typing_ali idle_hook)))))
     = [(autocomplete, "ali"%string)].
Proof. split; reflexivity. Qed.

(* ===================================================================== *)
(** * Part V: more on the rate limiter                                   *)
(* ===================================================================== *)

Section SortedRuns.
Context {T A E : Type}.
Implicit Types this : RateLimiter T A E.

Lemma sorted_snoc_inv (l : list Z) (x : Z) :
  StronglySorted Z.le (l ++ [x]) ->
  StronglySorted Z.le l /\ Forall (fun y => y <= x) l.
Proof.
  induction l as [|y l IH]; simpl; intros H.
  - split; constructor.
  - apply StronglySorted_inv in H. destruct H as [Hs Hall].
    destruct (IH Hs) as [Hl Hx]. split.
    + constructor; [exact Hl|].
      apply Forall_app in Hall. tauto.
    + constructor; [|exact Hx].
      apply Forall_app in Hall. destruct Hall as [_ Hy].
      inversion Hy; assumption.
Qed.

Lemma sorted_snoc (l : list Z) (x : Z) :
  StronglySorted Z.le l -> Forall (fun y => y <= x) l ->
  StronglySorted Z.le (l ++ [x]).
Proof.
  induction l as [|y l IH]; simpl; intros Hs Hall.
  - repeat constructor.
  - apply StronglySorted_inv in Hs. destruct Hs as [Hs Hy].
    inversion Hall as [|? ? Hyx Hrest]; subst.
    constructor; [apply IH; assumption|].
    apply Forall_app; split; [exact Hy|]. repeat constructor; exact Hyx.
Qed.

Lemma sorted_filter (keep : Z -> bool) (l : list Z) :
  StronglySorted Z.le l -> StronglySorted Z.le (filter keep l).
Proof.
  induction 1 as [|y l Hs IH Hy]; simpl; [constructor|].
  destruct (keep y); [|exact IH].
  constructor; [exact IH|].
  rewrite Forall_forall in *. intros z Hz.
  apply filter_In in Hz. apply Hy; tauto.
Qed.

Lemma filter_length_implies {X : Type} (p q : X -> bool) (l : list X) :
  (forall x, In x l -> p x = true -> q x = true) ->
  (List.length (filter p l) <= List.length (filter q l))%nat.
Proof.
  induction l as [|x l IH]; simpl; intros H; [lia|].
  assert (IH' : (List.length (filter p l) <= List.length (filter q l))%nat)
    by (apply IH; intros y Hy; apply H; right; exact Hy).
  destruct (p x) eqn:Hp.
  - rewrite (H x (or_introl eq_refl) Hp). simpl. lia.
  - destruct (q x); simpl; lia.
Qed.

(** The log of a run lists the clock readings of its calls. *)
Lemma invoke_all_times (calls : list (Z * A)) this :
  map fst (fst (invoke_all calls this)) = map fst calls.
Proof.
  revert this; induction calls as [|[now args] calls IH]; intros this; simpl.
  - reflexivity.
  - specialize (IH (after (invoke now args this))).
    destruct (invoke_all calls (after (invoke now args this))); simpl in *.
    rewrite IH; reflexivity.
Qed.

Lemma admitted_times_are_call_times (calls : list (Z * A)) this (t : Z) :
  In t (admitted_times (fst (invoke_all calls this))) -> In t (map fst calls).
Proof.
  intros H. rewrite <- (invoke_all_times calls this).
  unfold admitted_times in H. apply in_map_iff in H.
  destruct H as (c & Hc & Hin). apply filter_In in Hin.
  apply in_map_iff. exists c; tauto.
Qed.

Lemma call_times_before (before : list (Z * A)) (t : Z) :
  Forall (fun y => y <= t) (map fst before) ->
  Forall (fun c : Z * A => fst c <= t) before.
Proof.
  rewrite !Forall_forall. intros H c Hc. apply H. apply in_map; exact Hc.
Qed.

(** The stored timestamps come from the admitted calls. *)
Lemma stored_timestamps_are_admitted (calls : list (Z * A)) (m w : Z)
    (f : A -> Promise E T) (t : Z) :
  In t (timestamps (snd (invoke_all calls (new_RateLimiter m w f)))) ->
  In t (admitted_times (fst (invoke_all calls (new_RateLimiter m w f)))).
Proof.
  revert t; induction calls as [|[now args] before IH] using rev_ind;
    intros t; [simpl; tauto|].
  rewrite invoke_all_app; simpl.
  rewrite invoke_timestamps, admitted_times_app, !in_app_iff.
  intros [H|H].
  - left. apply IH. apply filter_In in H; tauto.
  - right. unfold admitted_times; simpl.
    destruct (is_failure (response (invoke now args _))); exact H.
Qed.

(** X1. The guarantee of the limiter: when no call reads an earlier clock
    value than a call before it, the admitted calls whose reading lies in
    any one interval [[a, a + timeWindow)] number at most [maxRequests]. *)
Theorem at_most_maxRequests_per_window (m w : Z) (f : A -> Promise E T)
    (calls : list (Z * A)) (a : Z) :
  0 <= m ->
  StronglySorted Z.le (map fst calls) ->
  Z.of_nat (List.length
    (filter (fun t => (a <=? t) && (t <? a + w))
            (admitted_times (fst (invoke_all calls (new_RateLimiter m w f))))))
  <= m.
Proof.
  intros Hm. induction calls as [|[t args] before IH] using rev_ind;
    intros Hs; [simpl; lia|].
  rewrite map_app in Hs; simpl in Hs.
  apply sorted_snoc_inv in Hs. destruct Hs as [Hs Hle].
  specialize (IH Hs).
  rewrite invoke_all_app; simpl.
  set (past := invoke_all before (new_RateLimiter m w f)) in *.
  rewrite admitted_times_app, filter_app, length_app.
  unfold admitted_times at 2; simpl.
  destruct (is_failure (response (invoke t args (snd past)))) eqn:Hf;
    simpl; [lia|].
  destruct ((a <=? t) && (t <? a + w)) eqn:Hin; simpl; [|lia].
  apply andb_true_iff in Hin. destruct Hin as [Ha Hb].
  apply Z.leb_le in Ha. apply Z.ltb_lt in Hb.
  apply invoke_admitted_iff in Hf.
  destruct (invoke_all_config before (new_RateLimiter m w f))
    as (Cm & Cw & _); fold past in Cm, Cw; simpl in Cm, Cw.
  rewrite Cm, Cw in Hf.
  pose proof (stored_timestamps_are_history m w f before t
                (call_times_before before t Hle)) as Hh.
  fold past in Hh. rewrite Hh in Hf.
  pose proof (filter_length_implies
                (fun t' => (a <=? t') && (t' <? a + w))
                (fun t' => t - t' <? w)
                (admitted_times (fst past))) as Hcount.
  assert (Himp : forall t', In t' (admitted_times (fst past)) ->
                   (a <=? t') && (t' <? a + w) = true -> (t - t' <? w) = true).
  { intros t' _ Hwin.
    apply andb_true_iff in Hwin. destruct Hwin as [Ha' _].
    apply Z.leb_le in Ha'. apply Z.ltb_lt. lia. }
  specialize (Hcount Himp). lia.
Qed.

(** X2. When no call reads an earlier clock value than a call before it,
    the stored timestamps are in non-decreasing order, and each of them is
    the reading of an admitted call. *)
Theorem timestamps_stay_sorted (m w : Z) (f : A -> Promise E T)
    (calls : list (Z * A)) :
  StronglySorted Z.le (map fst calls) ->
  StronglySorted Z.le
    (timestamps (snd (invoke_all calls (new_RateLimiter m w f))))
  /\ incl (timestamps (snd (invoke_all calls (new_RateLimiter m w f))))
          (admitted_times (fst (invoke_all calls (new_RateLimiter m w f)))).
Proof.
  intros Hs. split; [|intros t; apply stored_timestamps_are_admitted].
  induction calls as [|[t args] before IH] using rev_ind;
    [simpl; constructor|].
  rewrite map_app in Hs; simpl in Hs.
  apply sorted_snoc_inv in Hs. destruct Hs as [Hs Hle].
  specialize (IH Hs).
  rewrite invoke_all_app; simpl. rewrite invoke_timestamps.
  set (past := invoke_all before (new_RateLimiter m w f)) in *.
  destruct (is_failure (response (invoke t args (snd past)))).
  - rewrite app_nil_r. apply sorted_filter; exact IH.
  - apply sorted_snoc; [apply sorted_filter; exact IH|].
    rewrite Forall_forall in *. intros y Hy. apply Hle.
    apply filter_In in Hy. destruct Hy as [Hy _].
    apply (admitted_times_are_call_times before (new_RateLimiter m w f)).
    apply stored_timestamps_are_admitted; exact Hy.
Qed.

End SortedRuns.

Section HonestMessage.
Context {T A E : Type}.
Implicit Types this : RateLimiter T A E.

Lemma reachable_length_bound m w f this :
  0 <= m -> reachable m w f this ->
  Z.of_nat (List.length (timestamps this)) <= m.
Proof.
  intros Hm R. induction R as [|this now args R IH|this now1 now2 R IH].
  - simpl; lia.
  - destruct (reachable_invariant m w f this R) as (Cm & _).
    rewrite invoke_timestamps, length_app.
    pose proof (filter_length_le
                  (fun timestamp => now - timestamp <? timeWindow this)
                  (timestamps this)) as Hfl.
    destruct (is_failure (response (invoke now args this))) eqn:Hf; simpl.
    + lia.
    + apply invoke_admitted_iff in Hf. lia.
  - rewrite updateErrorTime_frame; simpl. exact IH.
Qed.

Lemma filter_all {X : Type} (p : X -> bool) (l : list X) :
  (forall x, In x l -> p x = true) -> filter p l = l.
Proof.
  induction l as [|x l IH]; simpl; intros H; [reflexivity|].
  rewrite (H x (or_introl eq_refl)). f_equal. apply IH.
  intros y Hy; apply H; right; exact Hy.
Qed.

Lemma Number_toString_not_null (r : Z) : Number_toString r <> "null"%string.
Proof.
  unfold Number_toString. intros H.
  assert (Hnn : Z.to_int r <> Decimal.Pos Decimal.Nil
                /\ Z.to_int r <> Decimal.Neg Decimal.Nil).
  { destruct r as [|q|q]; simpl; split; try discriminate;
      intros Hq; inversion Hq as [Hu];
      exact (DecimalPos.Unsigned.to_uint_nonnil q Hu). }
  pose proof (NilZero.isi (Z.to_int r) (proj1 Hnn) (proj2 Hnn)) as Hr.
  rewrite H in Hr. vm_compute in Hr. discriminate Hr.
Qed.

(** X3. No false all-clear.  If a poll at [now] leaves no message on a
    limiter built with a positive [maxRequests], every [invoke] at that
    time or later, with no other call in between, is admitted. *)
Theorem no_message_means_invoke_admitted (m w : Z) (f : A -> Promise E T)
    this (now now' : Z) (args : A) :
  0 < m ->
  reachable m w f this ->
  error (updateErrorTime now now this) = None ->
  now <= now' ->
  is_failure (response (invoke now' args this)) = false.
Proof.
  intros Hm R Hnone Hle.
  pose proof (reachable_length_bound m w f this (Z.lt_le_incl _ _ Hm) R) as Hb.
  destruct (reachable_invariant m w f this R) as (Cm & Cw & _).
  rewrite (updateErrorTime_two_readings m w f this now now R (Z.le_refl _))
    in Hnone.
  apply invoke_admitted_iff. rewrite Cm, Cw.
  destruct (timestamps this) as [|t0 rest]; [simpl; lia|].
  pose proof (filter_length_le (fun timestamp => now' - timestamp <? w)
                               (t0 :: rest)) as Hfl.
  pose proof (filter_length_le (fun timestamp => now' - timestamp <? w) rest)
    as Hfr.
  rewrite Z.geb_leb in Hnone.
  destruct (Z.leb_spec m (Z.of_nat (List.length (t0 :: rest)))) as [Hfull|Hroom];
    [|lia].
  destruct (Z.ltb_spec (now - t0) w) as [Hin|Hout]; [discriminate|].
  cbn [filter].
  destruct (Z.ltb_spec (now' - t0) w) as [Hin'|_]; [lia|].
  simpl in Hb. lia.
Qed.

(** X4. No false alarm.  If a poll at [now] leaves a message on a limiter
    whose stored timestamps are in non-decreasing order, an [invoke] at
    that time is refused. *)
Theorem message_means_invoke_refused (m w : Z) (f : A -> Promise E T)
    this (now : Z) (args : A) :
  reachable m w f this ->
  StronglySorted Z.le (timestamps this) ->
  error (updateErrorTime now now this) <> None ->
  is_failure (response (invoke now args this)) = true.
Proof.
  intros R Hs Hshown.
  destruct (reachable_invariant m w f this R) as (Cm & Cw & _).
  rewrite (updateErrorTime_two_readings m w f this now now R (Z.le_refl _))
    in Hshown.
  apply invoke_refused_iff. rewrite Cm, Cw.
  destruct (timestamps this) as [|t0 rest]; [contradiction|].
  rewrite Z.geb_leb in Hshown.
  destruct (Z.leb_spec m (Z.of_nat (List.length (t0 :: rest)))) as [Hfull|_];
    [|contradiction].
  destruct (Z.ltb_spec (now - t0) w) as [Hin|_]; [|contradiction].
  rewrite filter_all; [exact Hfull|].
  apply StronglySorted_inv in Hs. destruct Hs as [_ Hall].
  rewrite Forall_forall in Hall.
  intros x [Hx|Hx]; apply Z.ltb_lt.
  - subst; exact Hin.
  - specialize (Hall x Hx). lia.
Qed.

(** X5. With a clock that does not step back between the two reads of a
    poll, the message never carries [null] in place of the seconds. *)
Theorem message_never_says_null (m w : Z) (f : A -> Promise E T)
    this (now1 now2 : Z) :
  reachable m w f this ->
  now1 <= now2 ->
  error (updateErrorTime now1 now2 this) <> Some (rate_exceeded None).
Proof.
  intros R Hle.
  rewrite (updateErrorTime_two_readings m w f this now1 now2 R Hle).
  destruct (timestamps this) as [|t0 rest]; [discriminate|].
  destruct (_ && _); [|discriminate].
  intros H. inversion H as [Hs]. simpl in Hs.
  change "null seconds."%string with ("null" ++ " seconds.")%string in Hs.
  apply append_cancel_right in Hs.
  exact (Number_toString_not_null _ Hs).
Qed.

(** X6. If the clock steps back between the two reads of a poll of a full
    limiter, from after the end of the window to before it, the message
    left reads "please wait null seconds". *)
Theorem clock_stepping_back_shows_null this (now1 now2 t0 : Z)
    (rest : list Z) :
  timestamps this = t0 :: rest ->
  maxRequests this <= Z.of_nat (List.length (timestamps this)) ->
  timeWindow this <= now1 - t0 ->
  now2 - t0 < timeWindow this ->
  error (updateErrorTime now1 now2 this)
  = Some "Rate exceeded, please wait null seconds."%string.
Proof.
  intros Hts Hfull H1 H2.
  rewrite updateErrorTime_error, !calculateRemainingTime_result, Hts.
  rewrite Hts in Hfull.
  destruct (Z.ltb_spec (now2 - t0) (timeWindow this)) as [_|]; [|lia].
  destruct (Z.ltb_spec (now1 - t0) (timeWindow this)) as [|_]; [lia|].
  rewrite Z.geb_leb.
  destruct (Z.leb_spec (maxRequests this)
              (Z.of_nat (List.length (t0 :: rest)))) as [_|]; [|lia].
  reflexivity.
Qed.

(** X7. A lookup that is rejected keeps the slot it took: the timestamp
    of its call is stored before the lookup is awaited, so a later call
    inside the window is admitted only if fewer than [maxRequests - 1] of
    the earlier timestamps are still inside it. *)
Theorem rejected_lookup_keeps_its_slot this (now now' : Z) (args args' : A)
    (reason : E) :
  Z.of_nat (List.length
    (filter (fun timestamp => now - timestamp <? timeWindow this)
            (timestamps this)))
  < maxRequests this ->
  func this args = rejected reason ->
  now <= now' ->
  now' - now < timeWindow this ->
  response (invoke now args this) = rejected reason
  /\ (is_failure (response (invoke now' args' (after (invoke now args this))))
      = false
      <-> Z.of_nat (List.length
            (filter (fun timestamp => now' - timestamp <? timeWindow this)
                    (timestamps this))) + 1
          < maxRequests this).
Proof.
  intros Hroom Hrej Hle Hin.
  assert (Hadm : is_failure (response (invoke now args this)) = false)
    by (apply invoke_admitted_iff; exact Hroom).
  split.
  - unfold invoke; simpl. rewrite Z.geb_leb.
    destruct (Z.leb_spec (maxRequests this)
                (Z.of_nat (List.length
                   (filter (fun timestamp => now - timestamp <? timeWindow this)
                           (timestamps this))))) as [H|_]; [lia|]; simpl.
    rewrite Hrej; reflexivity.
  - rewrite invoke_admitted_iff.
    destruct (invoke_config now args this) as (Cm & Cw & _).
    rewrite Cm, Cw, invoke_timestamps, Hadm, filter_app, length_app.
    rewrite filter_window_twice by exact Hle.
    cbn [filter]. destruct (Z.ltb_spec (now' - now) (timeWindow this));
      [|lia].
    simpl. rewrite Nat2Z.inj_add. simpl. reflexivity.
Qed.

End HonestMessage.

(* ===================================================================== *)
(** * Part VI: more on the debounced dispatcher                          *)
(* ===================================================================== *)

Section DebounceMore.

(** X8. While the renders of a burst keep coming, each changing the
    dependency list, each less than the delay after the one before, with
    delays [setTimeout] waits out in full, then however many they are no
    lookup is called, nothing is published and the value does not change:
    the cleanup of each run clears the timeout of the run before, and the
    only live timeout is the last one. *)
Theorem nothing_happens_during_burst (h : Hook) (events : list (Z * Props)) :
  tidy h ->
  burst h events ->
  changing (deps h) events ->
  in_range events ->
  lookups (renders events h) = lookups h
  /\ published (renders events h) = published h
  /\ suspended (renders events h) = suspended h
  /\ value (renders events h) = value h.
Proof.
  intros Ht Hb Hch Hin.
  destruct events as [|e events]; [simpl; repeat split|].
  destruct (@exists_last _ (e :: events)) as (earlier & [tn pn] & Heq);
    [discriminate|].
  rewrite Heq in *.
  destruct (renders_burst h earlier tn pn Ht Hb Hch Hin)
    as (Hl & Hp & Hs & Hv & _ & _).
  repeat split; assumption.
Qed.

(** X9. A render that passes another array object as the baseline sets a
    new timeout even if the query, the delay and the function are the ones
    of the render before; with a non-empty query the lookup is then called
    again once the delay has passed. *)
Theorem new_baseline_object_rearms_timeout (h : Hook) (now : Z) (p : Props)
    (t : Z) :
  tidy h ->
  address (initialValue (deps h)) <> address (initialValue p) ->
  query p <> ""%string ->
  now + setTimeout_delay (delay p) <= t ->
  timers (useDebounce now p h)
  = [ {| handle := next_handle h; due := now + setTimeout_delay (delay p);
         closure := p |} ]
  /\ lookups (advance t (useDebounce now p h))
     = (lookups h ++ [(targetFunction p, query p)])%list.
Proof.
  intros Htidy Haddr Hq Ht.
  assert (Hch : same_deps (deps h) p = false).
  { unfold same_deps. rewrite (proj2 (Nat.eqb_neq _ _) Haddr).
    apply andb_false_r. }
  rewrite (useDebounce_changed now p h Hch), (update_tidy now p h Htidy).
  split; [reflexivity|].
  match goal with
  | |- context [advance t ?s] =>
      destruct (advance_fires t s
                  {| handle := next_handle h;
                     due := now + setTimeout_delay (delay p);
                     closure := p |} eq_refl Ht) as (Hfire & _)
  end.
  rewrite Hfire. cbn [closure handle]. unfold callback.
  rewrite (query_length_nonempty _ Hq). reflexivity.
Qed.

(** X10. Results are published in the order the lookups settle.  When the
    timeout of a query fires, the query then changes and the timeout of the
    new query fires too, and the first lookup settles after the second, the
    value left is the result for the first query although the query in
    force is the second. *)
Theorem late_result_of_old_query_wins {E : Type} (h : Hook)
    (t1 T1 t2 T2 : Z) (p1 p2 : Props) (r1 r2 : PersonsArray) :
  tidy h ->
  suspended h = [] ->
  same_deps (deps h) p1 = false ->
  same_deps p1 p2 = false ->
  query p1 <> ""%string ->
  query p2 <> ""%string ->
  t1 + setTimeout_delay (delay p1) <= T1 ->
  t2 + setTimeout_delay (delay p2) <= T2 ->
  let both_called :=
    advance T2 (useDebounce t2 p2 (advance T1 (useDebounce t1 p1 h))) in
  let final :=
    settle (E := E) 0 (fulfilled r1)
      (settle (E := E) 1 (fulfilled r2) both_called) in
  lookups both_called
  = (lookups h
       ++ [(targetFunction p1, query p1); (targetFunction p2, query p2)])%list
  /\ value final = r1
  /\ query (deps final) = query p2
  /\ published final = (published h ++ [r2; r1])%list.
Proof.
  intros Htidy Hsusp Hch1 Hch2 Hq1 Hq2 HT1 HT2 both_called final.
  pose proof (query_length_nonempty _ Hq1) as Hl1.
  pose proof (query_length_nonempty _ Hq2) as Hl2.
  assert (H1 : exists h1,
             advance T1 (useDebounce t1 p1 h) = h1
             /\ timers h1 = [] /\ deps h1 = p1
             /\ suspended h1 = [p1]
             /\ lookups h1 = (lookups h ++ [(targetFunction p1, query p1)])%list
             /\ published h1 = published h).
  { eexists; split; [reflexivity|].
    rewrite (useDebounce_changed t1 p1 h Hch1), (update_tidy t1 p1 h Htidy).
    match goal with
    | |- context [advance T1 ?s] =>
        destruct (advance_fires T1 s
                    {| handle := next_handle h;
                       due := t1 + setTimeout_delay (delay p1);
                       closure := p1 |} eq_refl HT1) as (Hfire & Hnone)
    end.
    split; [exact Hnone|].
    rewrite Hfire. cbn [closure handle]. unfold callback. rewrite Hl1.
    simpl. rewrite Hsusp. repeat split. }
  destruct H1 as (h1 & Hh1 & Htm1 & Hd1 & Hs1 & Hlk1 & Hp1).
  unfold final, both_called. rewrite Hh1.
  rewrite (useDebounce_changed t2 p2 h1) by (rewrite Hd1; exact Hch2).
  rewrite (update_tidy t2 p2 h1 (tidy_idle h1 Htm1)).
  match goal with
  | |- context [advance T2 ?s] =>
      destruct (advance_fires T2 s
                  {| handle := next_handle h1;
                     due := t2 + setTimeout_delay (delay p2);
                     closure := p2 |} eq_refl HT2) as (Hfire & _)
  end.
  rewrite Hfire. cbn [closure handle]. unfold callback. rewrite Hl2.
  unfold settle; simpl. rewrite Hs1, Hlk1, Hp1; simpl.
  repeat split; rewrite <- ?app_assoc; reflexivity.
Qed.

End DebounceMore.

(* ===================================================================== *)
(** * Part VII: the mock query service                                   *)
(* ===================================================================== *)

Section StringFacts.

Lemma Char_toLowerCase_idempotent (c : ascii) :
  Char_toLowerCase (Char_toLowerCase c) = Char_toLowerCase c.
Proof.
  destruct c as [[] [] [] [] [] [] [] []]; reflexivity.
Qed.

Lemma toLowerCase_idempotent (s : string) :
  toLowerCase (toLowerCase s) = toLowerCase s.
Proof.
  induction s as [|c s IH]; simpl; [reflexivity|].
  rewrite Char_toLowerCase_idempotent, IH. reflexivity.
Qed.

Lemma toLowerCase_length (s : string) :
  String.length (toLowerCase s) = String.length s.
Proof. induction s as [|c s IH]; simpl; [reflexivity|rewrite IH; reflexivity]. Qed.

Lemma toLowerCase_append (s1 s2 : string) :
  toLowerCase (s1 ++ s2) = (toLowerCase s1 ++ toLowerCase s2)%string.
Proof. induction s1 as [|c s1 IH]; simpl; [reflexivity|rewrite IH; reflexivity]. Qed.

Lemma prefix_length (a s : string) :
  String.prefix a s = true -> (String.length a <= String.length s)%nat.
Proof.
  revert a; induction s as [|c s IH]; intros [|d a]; simpl; intros H;
    try lia; try discriminate.
  destruct (ascii_dec d c); [|discriminate].
  specialize (IH a H). lia.
Qed.

Lemma prefix_append_left (a b s : string) :
  String.prefix (a ++ b) s = true -> String.prefix a s = true.
Proof.
  revert a; induction s as [|c s IH]; intros [|d a]; simpl; intros H;
    try reflexivity; try discriminate.
  destruct (ascii_dec d c); [exact (IH a H)|discriminate].
Qed.

Lemma startsWith_includes (s a : string) :
  startsWith s a = true -> includes s a = true.
Proof.
  unfold startsWith. intros H. destruct s; cbn [includes]; rewrite H; reflexivity.
Qed.

Lemma includes_length (s a : string) :
  includes s a = true -> (String.length a <= String.length s)%nat.
Proof.
  induction s as [|c s IH]; cbn [includes]; intros H.
  - apply orb_true_iff in H. destruct H as [H|H]; [|discriminate].
    exact (prefix_length a _ H).
  - apply orb_true_iff in H. destruct H as [H|H].
    + exact (prefix_length a _ H).
    + specialize (IH H). simpl. lia.
Qed.

Lemma includes_append_left (s a b : string) :
  includes s (a ++ b) = true -> includes s a = true.
Proof.
  induction s as [|c s IH]; cbn [includes]; intros H;
    apply orb_true_iff in H; apply orb_true_iff; destruct H as [H|H].
  - left; exact (prefix_append_left a b _ H).
  - discriminate.
  - left; exact (prefix_append_left a b _ H).
  - right; exact (IH H).
Qed.

Lemma filter_filter_implies {X : Type} (p q : X -> bool) (l : list X) :
  (forall x, p x = true -> q x = true) ->
  filter p (filter q l) = filter p l.
Proof.
  intros H. induction l as [|x l IH]; simpl; [reflexivity|].
  destruct (q x) eqn:Hq; simpl.
  - rewrite IH; reflexivity.
  - destruct (p x) eqn:Hp; [|exact IH].
    rewrite (H x Hp) in Hq; discriminate.
Qed.

End StringFacts.

Section MockService.
Context {E : Type}.

(** X11. Every suggestion of [autocomplete] is a hit of [search] for the
    same query: the suggestions are the hits whose name, in lower case,
    starts with the query in lower case, in the order of the hits. *)
Theorem suggestions_are_search_hits (query : string) :
  exists hits suggestions,
    Mock.search (E := E) query = fulfilled hits
    /\ Mock.autocomplete (E := E) query = fulfilled suggestions
    /\ suggestions
       = filter (fun item =>
                   startsWith (toLowerCase (Persons.name item))
                              (toLowerCase query))
                hits
    /\ incl suggestions hits.
Proof.
  eexists; eexists. split; [reflexivity|]. split; [reflexivity|].
  assert (Heq : filter (fun item =>
                   startsWith (toLowerCase (Persons.name item))
                              (toLowerCase query)) Mock.mockData
                = filter (fun item =>
                   startsWith (toLowerCase (Persons.name item))
                              (toLowerCase query))
                    (filter (fun item =>
                       includes (toLowerCase (Persons.name item))
                                (toLowerCase query)) Mock.mockData)).
  { symmetry. apply filter_filter_implies.
    intros item. apply startsWith_includes. }
  split; [exact Heq|].
  rewrite Heq. apply incl_filter.
Qed.

(** X12. A query of more than 8 characters, the length of the longest
    name, has no hit and no suggestion. *)
Theorem long_query_finds_nothing (query : string) :
  (8 < String.length query)%nat ->
  Mock.search (E := E) query = fulfilled []
  /\ Mock.autocomplete (E := E) query = fulfilled [].
Proof.
  intros Hlen.
  assert (Hno : forall name,
             (String.length name <= 8)%nat ->
             includes (toLowerCase name) (toLowerCase query) = false).
  { intros name Hn.
    destruct (includes (toLowerCase name) (toLowerCase query)) eqn:Hi;
      [|reflexivity].
    apply includes_length in Hi. rewrite !toLowerCase_length in Hi. lia. }
  assert (Hno' : forall name,
             (String.length name <= 8)%nat ->
             startsWith (toLowerCase name) (toLowerCase query) = false).
  { intros name Hn.
    destruct (startsWith (toLowerCase name) (toLowerCase query)) eqn:Hi;
      [|reflexivity].
    apply startsWith_includes in Hi. rewrite (Hno name Hn) in Hi.
    discriminate. }
  unfold Mock.search, Mock.autocomplete, Mock.mockData.
  cbn [filter Persons.name].
  rewrite !Hno, !Hno' by (simpl; lia). split; reflexivity.
Qed.

(** X13. Typing on narrows the results: the hits and the suggestions for
    [query ++ more] are among those for [query], in the same order. *)
Theorem longer_query_narrows_results (query more : string) :
  exists hits suggestions,
    Mock.search (E := E) query = fulfilled hits
    /\ Mock.autocomplete (E := E) query = fulfilled suggestions
    /\ Mock.search (E := E) (query ++ more)
       = fulfilled
           (filter (fun item =>
                      includes (toLowerCase (Persons.name item))
                               (toLowerCase (query ++ more)))
                   hits)
    /\ Mock.autocomplete (E := E) (query ++ more)
       = fulfilled
           (filter (fun item =>
                      startsWith (toLowerCase (Persons.name item))
                                 (toLowerCase (query ++ more)))
                   suggestions).
Proof.
  eexists; eexists. split; [reflexivity|]. split; [reflexivity|].
  unfold Mock.search, Mock.autocomplete. split; f_equal; symmetry;
    apply filter_filter_implies; intros item; rewrite toLowerCase_append.
  - apply includes_append_left.
  - apply prefix_append_left.
Qed.

(** X14. The lookups ignore the case of the query: a query and its lower
    case have the same hits and the same suggestions. *)
Theorem lookups_ignore_case (query : string) :
  Mock.search (E := E) (toLowerCase query) = Mock.search query
  /\ Mock.autocomplete (E := E) (toLowerCase query) = Mock.autocomplete query.
Proof.
  unfold Mock.search, Mock.autocomplete.
  rewrite toLowerCase_idempotent. split; reflexivity.
Qed.

End MockService.

(* ===================================================================== *)
(** * Part VIII: the search button                                       *)
(* ===================================================================== *)

Section InvokeResponses.
Context {T A E : Type}.
Implicit Types this : RateLimiter T A E.

Lemma invoke_refused_response now args this :
  is_failure (response (invoke now args this)) = true ->
  response (invoke now args this) = fulfilled failure.
Proof.
  destruct (response (invoke now args this)) as [[data|]|reason]; simpl;
    intros H; try discriminate; reflexivity.
Qed.

Lemma invoke_admitted_response now args this :
  is_failure (response (invoke now args this)) = false ->
  response (invoke now args this)
  = await (func this args) (fun result => fulfilled (success result)).
Proof.
  unfold invoke; simpl.
  destruct (_ >=? maxRequests this); simpl; [discriminate|reflexivity].
Qed.

End InvokeResponses.

Section SearchButton.
Context {E : Type}.
Implicit Types lim : RateLimiter (list Persons.t) string E.

(** X15. A query of fewer than three characters stops [handleSearch] at
    its first test: the limiter is left as it was, not even pruned, the
    lookup is not called, and the only cell that changes is [charError]. *)
Theorem short_query_never_reaches_limiter (now : Z) (st : App.state) lim :
  (String.length (App.query st) < 3)%nat ->
  snd (handleSearch now st lim) = lim
  /\ snd (fst (handleSearch_start now st lim)) = lim
  /\ snd (handleSearch_start now st lim) = None
  /\ fst (handleSearch now st lim)
     = {| App.query := App.query st; App.results := App.results st;
          App.error := App.error st;
          App.charError := Some query_too_short;
          App.loading := App.loading st;
          App.searchMessage := App.searchMessage st |}.
Proof.
  intros Hlen. unfold handleSearch, handleSearch_start.
  destruct (Nat.ltb_spec (String.length (App.query st)) 3) as [_|H]; [|lia].
  repeat split.
Qed.

(** X16. With the lookup of lines 16-27, which never rejects, a search
    for a query of at least three characters always runs to its end,
    whatever the interval of lines 150-153 did while it waited.  It starts
    with the spinner on and both messages cleared, and the promise it
    waits for is fulfilled.  When it resumes, the spinner goes off and the
    input is cleared; if the limiter refused, the results and the heading
    are cleared; if it admitted, the heading names the query and the
    results are the hits, or cleared when there is none.  The lines after
    the [await] leave [error] and [charError] as they find them, so a
    message that a tick of the interval set in the meantime stays. *)
Theorem search_always_completes (now : Z) (st : App.state) lim :
  func lim = Mock.search ->
  (3 <= String.length (App.query st))%nat ->
  handleSearch_start now st lim
  = ({| App.query := App.query st; App.results := App.results st;
        App.error := None; App.charError := None; App.loading := true;
        App.searchMessage := App.searchMessage st |},
     after (invoke now (App.query st) lim),
     Some (App.query st, response (invoke now (App.query st) lim)))
  /\ (exists answer,
        response (invoke now (App.query st) lim) = fulfilled answer)
  /\ forall meanwhile : App.state,
       let done :=
         handleSearch_resume (App.query st)
           (response (invoke now (App.query st) lim)) meanwhile in
       App.loading done = false
       /\ App.query done = ""%string
       /\ App.error done = App.error meanwhile
       /\ App.charError done = App.charError meanwhile
       /\ (is_failure (response (invoke now (App.query st) lim)) = true ->
           App.results done = None /\ App.searchMessage done = None)
       /\ (is_failure (response (invoke now (App.query st) lim)) = false ->
           App.searchMessage done = Some (search_result_for (App.query st))
           /\ exists hits,
                Mock.search (E := E) (App.query st) = fulfilled hits
                /\ App.results done
                   = match hits with
                     | [] => None
                     | _ :: _ => Some hits
                     end).
Proof.
  intros Hfunc Hlen. split; [|split].
  - unfold handleSearch_start.
    destruct (Nat.ltb_spec (String.length (App.query st)) 3) as [H|_]; [lia|].
    reflexivity.
  - destruct (is_failure (response (invoke now (App.query st) lim))) eqn:Hf.
    + rewrite (invoke_refused_response _ _ _ Hf). eexists; reflexivity.
    + rewrite (invoke_admitted_response _ _ _ Hf), Hfunc.
      eexists; reflexivity.
  - intros meanwhile.
    destruct (is_failure (response (invoke now (App.query st) lim))) eqn:Hf.
    + rewrite (invoke_refused_response _ _ _ Hf).
      cbv beta iota zeta delta [handleSearch_resume].
      cbn [App.loading App.query App.charError App.error App.results
           App.searchMessage].
      repeat split; intros; discriminate.
    + rewrite (invoke_admitted_response _ _ _ Hf), Hfunc.
      cbv beta iota zeta delta [handleSearch_resume await Mock.search].
      cbn [App.loading App.query App.charError App.error App.results
           App.searchMessage].
      repeat split; try (intros; discriminate).
      eexists; split; [reflexivity|].
      destruct (filter _ Mock.mockData); reflexivity.
Qed.

(** X17. A refused search clears the results and leaves the form enabled:
    [handleSearch] itself sets no message.  The message appears with the
    next tick of the interval, if the earliest stored timestamp is then
    still inside the window, and from then the form is disabled. *)
Theorem refused_search_shows_message_at_next_tick (now now' : Z)
    (st : App.state) lim (t0 : Z) (rest : list Z) :
  (3 <= String.length (App.query st))%nat ->
  is_failure (response (invoke now (App.query st) lim)) = true ->
  timestamps (after (invoke now (App.query st) lim)) = t0 :: rest ->
  now' - t0 < timeWindow lim ->
  let searched := handleSearch now st lim in
  let ticked := App_tick now' now' (fst searched) (snd searched) in
  App.results (fst searched) = None
  /\ disabled (fst searched) = false
  /\ App.error (fst ticked)
     = Some (rate_exceeded
               (Some (Math_ceil_div (timeWindow lim - (now' - t0)) 1000)))
  /\ disabled (fst ticked) = true.
Proof.
  intros Hlen Hf Hts Hin searched ticked.
  assert (Hs : searched
               = ({| App.query := ""; App.results := None; App.error := None;
                     App.charError := None; App.loading := false;
                     App.searchMessage := None |},
                  after (invoke now (App.query st) lim))).
  { unfold searched, handleSearch, handleSearch_start.
    destruct (Nat.ltb_spec (String.length (App.query st)) 3) as [H|_]; [lia|].
    cbv beta iota zeta.
    rewrite (invoke_refused_response _ _ _ Hf). reflexivity. }
  assert (He : App.error (fst ticked)
               = Some (rate_exceeded
                   (Some (Math_ceil_div (timeWindow lim - (now' - t0)) 1000)))).
  { unfold ticked. rewrite Hs. unfold App_tick; simpl.
    rewrite updateErrorTime_error, !calculateRemainingTime_result, Hts.
    destruct (invoke_config now (App.query st) lim) as (Cm & Cw & _).
    rewrite Cm, Cw.
    destruct (Z.ltb_spec (now' - t0) (timeWindow lim)) as [_|]; [|lia].
    apply invoke_refused_iff in Hf.
    rewrite invoke_timestamps in Hts.
    assert (Hf' : is_failure (response (invoke now (App.query st) lim)) = true)
      by (apply invoke_refused_iff; exact Hf).
    rewrite Hf', app_nil_r in Hts. rewrite Hts in Hf.
    rewrite Z.geb_leb.
    destruct (Z.leb_spec (maxRequests lim)
                (Z.of_nat (List.length (t0 :: rest)))) as [_|]; [|lia].
    reflexivity. }
  split; [rewrite Hs; reflexivity|].
  split; [rewrite Hs; reflexivity|].
  split; [exact He|].
  unfold disabled. rewrite He. apply orb_true_r.
Qed.

End SearchButton.

(* ===================================================================== *)
(** * Part VIII, continued: the countdown and a failing lookup           *)
(* ===================================================================== *)

Section Countdown.
Context {T A E : Type}.
Implicit Types this : RateLimiter T A E.

(** X18. The countdown is truthful.  When [calculateRemainingTime] answers
    [r] seconds at [now], an [invoke] made [r] seconds later or after
    that, with no other call in between, is admitted.  And if the limiter
    is full with its timestamps in non-decreasing order, an [invoke] made
    up to [r - 1] seconds later is refused. *)
Theorem waiting_the_seconds_shown_is_enough (m w : Z) (f : A -> Promise E T)
    this (now r : Z) (args : A) :
  0 < m ->
  reachable m w f this ->
  snd (calculateRemainingTime now this) = Some r ->
  (forall now', now + 1000 * r <= now' ->
     is_failure (response (invoke now' args this)) = false)
  /\ (StronglySorted Z.le (timestamps this) ->
      m <= Z.of_nat (List.length (timestamps this)) ->
      forall now', now' <= now + 1000 * (r - 1) ->
        is_failure (response (invoke now' args this)) = true).
Proof.
  intros Hm R Hr.
  pose proof (reachable_length_bound m w f this (Z.lt_le_incl _ _ Hm) R) as Hb.
  destruct (reachable_invariant m w f this R) as (Cm & Cw & _).
  rewrite calculateRemainingTime_result, Cw in Hr.
  destruct (timestamps this) as [|t0 rest] eqn:Ets; [discriminate|].
  destruct (Z.ltb_spec (now - t0) w) as [Hin|]; [|discriminate].
  assert (Hr' : Math_ceil_div (w - (now - t0)) 1000 = r) by congruence.
  clear Hr.
  pose proof (Math_ceil_div_spec (w - (now - t0)) 1000 ltac:(lia)) as Hc.
  rewrite Hr' in Hc. split.
  - intros now' Hlate. apply invoke_admitted_iff. rewrite Cm, Cw, Ets.
    cbn [filter].
    pose proof (filter_length_le (fun timestamp => now' - timestamp <? w) rest)
      as Hfr.
    destruct (Z.ltb_spec (now' - t0) w) as [|_]; [lia|].
    cbn [List.length] in Hb. rewrite Nat2Z.inj_succ in Hb. lia.
  - intros Hs Hfull now' Hearly. apply invoke_refused_iff.
    rewrite Cm, Cw, Ets.
    rewrite filter_all; [exact Hfull|].
    apply StronglySorted_inv in Hs. destruct Hs as [_ Hall].
    rewrite Forall_forall in Hall.
    intros x [Hx|Hx]; apply Z.ltb_lt.
    + subst x; lia.
    + specialize (Hall x Hx). lia.
Qed.

End Countdown.

Section FailingLookup.
Context {E : Type}.
Implicit Types lim : RateLimiter (list Persons.t) string E.

(** X19. [handleSearch] does not catch a rejection of the lookup.  When
    the limiter admits the call and the lookup rejects, the lines after the
    [await] do not run: the spinner stays on, the form stays disabled, the
    input is not cleared, and the limiter has stored the timestamp. *)
Theorem rejected_lookup_leaves_spinner_on (now : Z) (st : App.state) lim
    (reason : E) :
  (3 <= String.length (App.query st))%nat ->
  is_failure (response (invoke now (App.query st) lim)) = false ->
  func lim (App.query st) = rejected reason ->
  let done := handleSearch now st lim in
  App.loading (fst done) = true
  /\ disabled (fst done) = true
  /\ App.query (fst done) = App.query st
  /\ App.results (fst done) = App.results st
  /\ timestamps (snd done)
     = (filter (fun timestamp => now - timestamp <? timeWindow lim)
               (timestamps lim) ++ [now])%list.
Proof.
  intros Hlen Hadm Hrej done. unfold done, handleSearch, handleSearch_start.
  destruct (Nat.ltb_spec (String.length (App.query st)) 3) as [H|_]; [lia|].
  cbv beta iota zeta.
  rewrite (invoke_admitted_response _ _ _ Hadm), Hrej.
  cbv beta iota delta [await handleSearch_resume]. cbn [fst snd].
  rewrite invoke_timestamps, Hadm. repeat split.
Qed.

End FailingLookup.

(* ===================================================================== *)
(** * Part IX: the further statements at work                            *)
(* ===================================================================== *)

Lemma at_most_maxRequests_per_window_witness :
  0 <= 2
  /\ StronglySorted Z.le
       (map fst [(0, "ali"%string); (1, "bob"%string); (2, "cha"%string);
                 (15001, "dia"%string)])
  /\ Z.of_nat (List.length
       (filter (fun t => (1 <=? t) && (t <? 1 + 15000))
          (admitted_times
             (fst (invoke_all
                     [(0, "ali"%string); (1, "bob"%string);
                      (2, "cha"%string); (15001, "dia"%string)]
                     (new_RateLimiter 2 15000 no_results))))))
     <= 2.
Proof.
  assert (H0 : 0 <= 2) by lia.
  assert (Hs : StronglySorted Z.le
                 (map fst [(0, "ali"%string); (1, "bob"%string);
                           (2, "cha"%string); (15001, "dia"%string)]))
    by (simpl; repeat constructor; lia).
  split; [exact H0|]. split; [exact Hs|].
  exact (at_most_maxRequests_per_window 2 15000 no_results _ 1 H0 Hs).
Defined.

Lemma timestamps_stay_sorted_witness :
  StronglySorted Z.le
    (map fst [(0, "ali"%string); (1, "bob"%string); (2, "cha"%string);
              (15001, "dia"%string)])
  /\ StronglySorted Z.le
       (timestamps
          (snd (invoke_all
                  [(0, "ali"%string); (1, "bob"%string); (2, "cha"%string);
                   (15001, "dia"%string)]
                  (new_RateLimiter 2 15000 no_results)))).
Proof.
  assert (Hs : StronglySorted Z.le
                 (map fst [(0, "ali"%string); (1, "bob"%string);
                           (2, "cha"%string); (15001, "dia"%string)]))
    by (simpl; repeat constructor; lia).
  split; [exact Hs|].
  exact (proj1 (timestamps_stay_sorted 2 15000 no_results _ Hs)).
Defined.

Lemma no_message_means_invoke_admitted_witness :
  0 < 2
  /\ reachable 2 15000 no_results full_limiter
  /\ error (updateErrorTime 15000 15000 full_limiter) = None
  /\ 15000 <= 15000
  /\ is_failure (response (invoke 15000 "cha"%string full_limiter)) = false.
Proof.
  assert (H0 : 0 < 2) by lia.
  assert (He : error (updateErrorTime 15000 15000 full_limiter) = None)
    by reflexivity.
  assert (Hle : 15000 <= 15000) by lia.
  split; [exact H0|]. split; [exact full_limiter_reachable|].
  split; [exact He|]. split; [exact Hle|].
  exact (no_message_means_invoke_admitted 2 15000 no_results full_limiter
           15000 15000 "cha"%string H0 full_limiter_reachable He Hle).
Defined.

Lemma message_means_invoke_refused_witness :
  reachable 2 15000 no_results full_limiter
  /\ StronglySorted Z.le (timestamps full_limiter)
  /\ error (updateErrorTime 1000 1000 full_limiter) <> None
  /\ is_failure (response (invoke 1000 "cha"%string full_limiter)) = true.
Proof.
  assert (Hs : StronglySorted Z.le (timestamps full_limiter))
    by (simpl; repeat constructor; lia).
  assert (He : error (updateErrorTime 1000 1000 full_limiter) <> None)
    by (simpl; discriminate).
  split; [exact full_limiter_reachable|]. split; [exact Hs|].
  split; [exact He|].
  exact (message_means_invoke_refused 2 15000 no_results full_limiter 1000
           "cha"%string full_limiter_reachable Hs He).
Defined.

Lemma message_never_says_null_witness :
  reachable 2 15000 no_results full_limiter
  /\ 1000 <= 1001
  /\ error (updateErrorTime 1000 1001 full_limiter)
     <> Some (rate_exceeded None).
Proof.
  assert (Hle : 1000 <= 1001) by lia.
  split; [exact full_limiter_reachable|]. split; [exact Hle|].
  exact (message_never_says_null 2 15000 no_results full_limiter 1000 1001
           full_limiter_reachable Hle).
Defined.

Lemma clock_stepping_back_shows_null_witness :
  timestamps full_limiter = [0; 1]
  /\ maxRequests full_limiter
     <= Z.of_nat (List.length (timestamps full_limiter))
  /\ timeWindow full_limiter <= 15000 - 0
  /\ 14999 - 0 < timeWindow full_limiter
  /\ error (updateErrorTime 15000 14999 full_limiter)
     = Some "Rate exceeded, please wait null seconds."%string.
Proof.
  assert (H1 : timestamps full_limiter = [0; 1]) by reflexivity.
  assert (H2 : maxRequests full_limiter
               <= Z.of_nat (List.length (timestamps full_limiter)))
    by (simpl; lia).
  assert (H3 : timeWindow full_limiter <= 15000 - 0) by (simpl; lia).
  assert (H4 : 14999 - 0 < timeWindow full_limiter) by (simpl; lia).
  split; [exact H1|]. split; [exact H2|]. split; [exact H3|].
  split; [exact H4|].
  exact (clock_stepping_back_shows_null full_limiter 15000 14999 0 [1]
           H1 H2 H3 H4).
Defined.

Lemma rejected_lookup_keeps_its_slot_witness :
  Z.of_nat (List.length
    (filter (fun timestamp =>
               0 - timestamp <? timeWindow (new_RateLimiter 1 15000 failing_lookup))
            (timestamps (new_RateLimiter 1 15000 failing_lookup))))
  < maxRequests (new_RateLimiter 1 15000 failing_lookup)
  /\ func (new_RateLimiter 1 15000 failing_lookup) "ali"%string
     = rejected "unavailable"%string
  /\ 0 <= 100
  /\ 100 - 0 < timeWindow (new_RateLimiter 1 15000 failing_lookup)
  /\ response (invoke 0 "ali"%string (new_RateLimiter 1 15000 failing_lookup))
     = rejected "unavailable"%string.
Proof.
  assert (H1 : Z.of_nat (List.length
                 (filter (fun timestamp =>
                            0 - timestamp
                            <? timeWindow (new_RateLimiter 1 15000 failing_lookup))
                         (timestamps (new_RateLimiter 1 15000 failing_lookup))))
               < maxRequests (new_RateLimiter 1 15000 failing_lookup))
    by (simpl; lia).
  assert (H2 : func (new_RateLimiter 1 15000 failing_lookup) "ali"%string
               = rejected "unavailable"%string) by reflexivity.
  assert (H3 : 0 <= 100) by lia.
  assert (H4 : 100 - 0 < timeWindow (new_RateLimiter 1 15000 failing_lookup))
    by (simpl; lia).
  split; [exact H1|]. split; [exact H2|]. split; [exact H3|].
  split; [exact H4|].
  exact (proj1 (rejected_lookup_keeps_its_slot
                  (new_RateLimiter 1 15000 failing_lookup) 0 100
                  "ali"%string "bob"%string "unavailable"%string
                  H1 H2 H3 H4)).
Defined.

Lemma nothing_happens_during_burst_witness :
  tidy idle_hook
  /\ burst idle_hook typing_ali
  /\ changing (deps idle_hook) typing_ali
  /\ in_range typing_ali
  /\ lookups (renders typing_ali idle_hook) = lookups idle_hook.
Proof.
  assert (Hb : burst idle_hook typing_ali).
  { simpl. unfold settled_at; simpl. repeat split; try constructor; lia. }
  assert (Hch : changing (deps idle_hook) typing_ali)
    by (simpl; repeat split).
  assert (Hin : in_range typing_ali)
    by (unfold typing_ali; repeat constructor; simpl; lia).
  split; [exact idle_hook_tidy|]. split; [exact Hb|]. split; [exact Hch|].
  split; [exact Hin|].
  exact (proj1 (nothing_happens_during_burst idle_hook typing_ali
                  idle_hook_tidy Hb Hch Hin)).
Defined.

Lemma new_baseline_object_rearms_timeout_witness :
  tidy (advance 1450 (renders typing_ali idle_hook))
  /\ address (initialValue (deps (advance 1450 (renders typing_ali idle_hook))))
     <> address (initialValue (App_arguments 4 "ali"))
  /\ query (App_arguments 4 "ali") <> ""%string
  /\ 1950 + setTimeout_delay (delay (App_arguments 4 "ali")) <= 2200
  /\ lookups
       (advance 2200
          (useDebounce 1950 (App_arguments 4 "ali")
             (advance 1450 (renders typing_ali idle_hook))))
     = (lookups (advance 1450 (renders typing_ali idle_hook))
          ++ [(targetFunction (App_arguments 4 "ali"),
               query (App_arguments 4 "ali"))])%list.
Proof.
  assert (H1 : address (initialValue
                          (deps (advance 1450 (renders typing_ali idle_hook))))
               <> address (initialValue (App_arguments 4 "ali")))
    by (simpl; discriminate).
  assert (H2 : query (App_arguments 4 "ali") <> ""%string)
    by (simpl; discriminate).
  assert (H3 : 1950 + setTimeout_delay (delay (App_arguments 4 "ali")) <= 2200)
    by (vm_compute; discriminate).
  split; [exact typed_ali_tidy|]. split; [exact H1|]. split; [exact H2|].
  split; [exact H3|].
  exact (proj2 (new_baseline_object_rearms_timeout
                  (advance 1450 (renders typing_ali idle_hook)) 1950
                  (App_arguments 4 "ali") 2200 typed_ali_tidy H1 H2 H3)).
Defined.

Lemma late_result_of_old_query_wins_witness :
  tidy idle_hook
  /\ suspended idle_hook = []
  /\ same_deps (deps idle_hook) (App_arguments 1 "al") = false
  /\ same_deps (App_arguments 1 "al") (App_arguments 2 "ali") = false
  /\ query (App_arguments 1 "al") <> ""%string
  /\ query (App_arguments 2 "ali") <> ""%string
  /\ 1000 + setTimeout_delay (delay (App_arguments 1 "al")) <= 1250
  /\ 1300 + setTimeout_delay (delay (App_arguments 2 "ali")) <= 1550
  /\ value
       (settle (E := unit) 0
          (fulfilled {| address := 10%nat; elements := [] |})
          (settle (E := unit) 1
             (fulfilled {| address := 11%nat; elements := [] |})
             (advance 1550
                (useDebounce 1300 (App_arguments 2 "ali")
                   (advance 1250
                      (useDebounce 1000 (App_arguments 1 "al") idle_hook))))))
     = {| address := 10%nat; elements := [] |}.
Proof.
  assert (H1 : suspended idle_hook = []) by reflexivity.
  assert (H2 : same_deps (deps idle_hook) (App_arguments 1 "al") = false)
    by reflexivity.
  assert (H3 : same_deps (App_arguments 1 "al") (App_arguments 2 "ali") = false)
    by reflexivity.
  assert (H4 : query (App_arguments 1 "al") <> ""%string)
    by (simpl; discriminate).
  assert (H5 : query (App_arguments 2 "ali") <> ""%string)
    by (simpl; discriminate).
  assert (H6 : 1000 + setTimeout_delay (delay (App_arguments 1 "al")) <= 1250)
    by (vm_compute; discriminate).
  assert (H7 : 1300 + setTimeout_delay (delay (App_arguments 2 "ali")) <= 1550)
    by (vm_compute; discriminate).
  split; [exact idle_hook_tidy|].
  repeat (split; [assumption|]).
  exact (proj1 (proj2 (late_result_of_old_query_wins (E := unit) idle_hook
                         1000 1250 1300 1550 (App_arguments 1 "al")
                         (App_arguments 2 "ali")
                         {| address := 10%nat; elements := [] |}
                         {| address := 11%nat; elements := [] |}
                         idle_hook_tidy H1 H2 H3 H4 H5 H6 H7))).
Defined.

Lemma long_query_finds_nothing_witness :
  (8 < String.length "charlotte")%nat
  /\ Mock.search (E := unit) "charlotte" = fulfilled [].
Proof.
  assert (H : (8 < String.length "charlotte")%nat) by (simpl; lia).
  split; [exact H|].
  exact (proj1 (long_query_finds_nothing (E := unit) "charlotte" H)).
Defined.

Lemma short_query_never_reaches_limiter_witness :
  (String.length (App.query (App_typed "al")) < 3)%nat
  /\ snd (handleSearch 0 (App_typed "al") (App_limiter (E := unit)))
     = App_limiter.
Proof.
  assert (H : (String.length (App.query (App_typed "al")) < 3)%nat)
    by (simpl; lia).
  split; [exact H|].
  exact (proj1 (short_query_never_reaches_limiter 0 (App_typed "al")
                  (App_limiter (E := unit)) H)).
Defined.

Lemma search_always_completes_witness :
  func App_limiter_after_one = Mock.search
  /\ (3 <= String.length (App.query (App_typed "ali")))%nat
  /\ App.loading
       (handleSearch_resume (App.query (App_typed "ali"))
          (response (invoke 700 (App.query (App_typed "ali"))
                       App_limiter_after_one))
          (fst (App_tick 1000 1000
                  (fst (fst (handleSearch_start 700 (App_typed "ali")
                               App_limiter_after_one)))
                  (snd (fst (handleSearch_start 700 (App_typed "ali")
                               App_limiter_after_one))))))
     = false
  /\ App.error
       (handleSearch_resume (App.query (App_typed "ali"))
          (response (invoke 700 (App.query (App_typed "ali"))
                       App_limiter_after_one))
          (fst (App_tick 1000 1000
                  (fst (fst (handleSearch_start 700 (App_typed "ali")
                               App_limiter_after_one)))
                  (snd (fst (handleSearch_start 700 (App_typed "ali")
                               App_limiter_after_one))))))
     = Some "Rate exceeded, please wait 15 seconds."%string.
Proof.
  assert (H1 : func App_limiter_after_one = Mock.search) by reflexivity.
  assert (H2 : (3 <= String.length (App.query (App_typed "ali")))%nat)
    by (simpl; lia).
  split; [exact H1|]. split; [exact H2|].
  destruct (search_always_completes 700 (App_typed "ali")
              App_limiter_after_one H1 H2) as (_ & _ & Hdone).
  destruct (Hdone
              (fst (App_tick 1000 1000
                      (fst (fst (handleSearch_start 700 (App_typed "ali")
                                   App_limiter_after_one)))
                      (snd (fst (handleSearch_start 700 (App_typed "ali")
                                   App_limiter_after_one))))))
    as (Hl & _ & He & _).
  split; [exact Hl|].
  rewrite He. reflexivity.
Defined.

Lemma refused_search_shows_message_at_next_tick_witness :
  (3 <= String.length (App.query (App_typed "cha")))%nat
  /\ is_failure (response (invoke 2 (App.query (App_typed "cha"))
                             App_full_limiter))
     = true
  /\ timestamps (after (invoke 2 (App.query (App_typed "cha"))
                          App_full_limiter))
     = [0; 1]
  /\ 1000 - 0 < timeWindow App_full_limiter
  /\ App.error
       (fst (App_tick 1000 1000
               (fst (handleSearch 2 (App_typed "cha") App_full_limiter))
               (snd (handleSearch 2 (App_typed "cha") App_full_limiter))))
     = Some (rate_exceeded
               (Some (Math_ceil_div
                        (timeWindow App_full_limiter - (1000 - 0)) 1000))).
Proof.
  assert (H1 : (3 <= String.length (App.query (App_typed "cha")))%nat)
    by (simpl; lia).
  assert (H2 : is_failure (response (invoke 2 (App.query (App_typed "cha"))
                                        App_full_limiter)) = true)
    by reflexivity.
  assert (H3 : timestamps (after (invoke 2 (App.query (App_typed "cha"))
                                     App_full_limiter)) = [0; 1])
    by reflexivity.
  assert (H4 : 1000 - 0 < timeWindow App_full_limiter) by (simpl; lia).
  split; [exact H1|]. split; [exact H2|]. split; [exact H3|].
  split; [exact H4|].
  exact (proj1 (proj2 (proj2 (refused_search_shows_message_at_next_tick
                                2 1000 (App_typed "cha") App_full_limiter
                                0 [1] H1 H2 H3 H4)))).
Defined.

Example search_ali_finds_three :
  Mock.search (E := unit) "Ali"
  = fulfilled [ Persons.mk 1 "Alice" "Software Engineer";
                Persons.mk 2 "Alina" "Software Engineer";
                Persons.mk 3 "Alixa" "Software Engineer" ]
  /\ Mock.autocomplete (E := unit) "ch"
     = fulfilled [ Persons.mk 5 "Charlie" "Product Manager";
                   Persons.mk 6 "Charlito" "Product Manager" ]
  /\ Mock.search (E := unit) "LI"
     = fulfilled [ Persons.mk 1 "Alice" "Software Engineer";
                   Persons.mk 2 "Alina" "Software Engineer";
                   Persons.mk 3 "Alixa" "Software Engineer";
                   Persons.mk 5 "Charlie" "Product Manager";
                   Persons.mk 6 "Charlito" "Product Manager" ].
Proof. repeat split. Qed.

Lemma waiting_the_seconds_shown_is_enough_witness :
  0 < 2
  /\ reachable 2 15000 no_results full_limiter
  /\ snd (calculateRemainingTime 1000 full_limiter) = Some 14
  /\ is_failure (response (invoke 15000 "cha"%string full_limiter)) = false
  /\ is_failure (response (invoke 14000 "cha"%string full_limiter)) = true.
Proof.
  assert (H0 : 0 < 2) by lia.
  assert (Hr : snd (calculateRemainingTime 1000 full_limiter) = Some 14)
    by reflexivity.
  split; [exact H0|]. split; [exact full_limiter_reachable|].
  split; [exact Hr|].
  destruct (waiting_the_seconds_shown_is_enough 2 15000 no_results
              full_limiter 1000 14 "cha"%string H0 full_limiter_reachable Hr)
    as [Hlate Hearly].
  split.
  - apply Hlate. lia.
  - apply Hearly.
    + simpl; repeat constructor; lia.
    + simpl; lia.
    + lia.
Defined.

Lemma rejected_lookup_leaves_spinner_on_witness :
  (3 <= String.length (App.query (App_typed "ali")))%nat
  /\ is_failure (response (invoke 0 (App.query (App_typed "ali"))
                             (limiter failing_lookup)))
     = false
  /\ func (limiter failing_lookup) (App.query (App_typed "ali"))
     = rejected "unavailable"%string
  /\ App.loading (fst (handleSearch 0 (App_typed "ali")
                         (limiter failing_lookup)))
     = true.
Proof.
  assert (H1 : (3 <= String.length (App.query (App_typed "ali")))%nat)
    by (simpl; lia).
  assert (H2 : is_failure (response (invoke 0 (App.query (App_typed "ali"))
                                        (limiter failing_lookup))) = false)
    by reflexivity.
  assert (H3 : func (limiter failing_lookup) (App.query (App_typed "ali"))
               = rejected "unavailable"%string) by reflexivity.
  split; [exact H1|]. split; [exact H2|]. split; [exact H3|].
  exact (proj1 (rejected_lookup_leaves_spinner_on 0 (App_typed "ali")
                  (limiter failing_lookup) "unavailable"%string H1 H2 H3)).
Defined.
